(** * kleineGPT: the forward pass and the sampling loop of [model.py]

    A shallow embedding of [Head], [MultiHeadAttention], [FeedForward],
    [Block] and [BigramLanguageModel] over exact real arithmetic.

    - A tensor is its shape metadata together with nested lists of entries,
      as a torch tensor is a size plus storage.  Shape checks read the
      metadata and raise the error torch raises.
    - Exceptions and the random number generator are threaded through a
      small state-and-error monad [M].
    - [-inf] only ever appears in masked attention scores; those carry the
      type [xreal].  A softmax over a row that is entirely [-inf] is [nan]
      in torch; the embedding records that outcome as [NonFinite].
    - Exact reals never overflow.  Where a property is about float32
      itself (are the logits finite?), the lines concerned are embedded a
      second time over IEEE 754 binary32, in [Float32]. *)

From Stdlib Require Import Reals List Arith Lia Lra Bool ZArith.
From Stdlib Require SpecFloat.
Import ListNotations.

(** ** Outcomes *)

Inductive error : Type :=
  | IndexError          (* index out of range (embedding lookup, [logits[:, -1, :]],
                           class index of a target) *)
  | ShapeMismatch       (* RuntimeError: sizes of operands do not agree *)
  | EmptyCat            (* RuntimeError: torch.cat of an empty list *)
  | EmptyTable          (* RuntimeError: index_select() on a table without rows *)
  | BadDistribution     (* RuntimeError: torch.multinomial without categories *)
  | ZeroDivisionError   (* [n // 0], [0 ** -0.5] *)
  | ValueError          (* nn.Dropout with p outside [0, 1] *)
  | NonFinite.          (* not an exception: a [nan] entry was produced *)

(** ** The runtime: what torch supplies and this development is parametric in *)

Class Runtime : Type := {
  (** [nn.GELU]'s scalar map, x * Phi(x). *)
  gelu : R -> R;
  (** State of the random number generator. *)
  rng : Type;
  (** One freshly initialised parameter entry. *)
  draw_param : rng -> R * rng;
  (** One Bernoulli draw of dropout: [true] keeps the entry. *)
  draw_keep : R -> rng -> bool * rng;
  (** [torch.multinomial(row, num_samples=1)] on one row of probabilities. *)
  draw_index : list R -> rng -> nat * rng;
  draw_index_lt : forall (probs : list R) (s : rng),
      probs <> [] -> (fst (draw_index probs s) < length probs)%nat
}.

(** ** The monad *)

Section Monad.

Context {RT : Runtime}.

Definition M (A : Type) : Type := rng -> error + (A * rng).

Definition ret {A} (a : A) : M A := fun s => inr (a, s).

Definition raise {A} (e : error) : M A := fun _ => inl e.

Definition bind {A B} (c : M A) (f : A -> M B) : M B :=
  fun s => match c s with
           | inl e => inl e
           | inr (a, s') => f a s'
           end.

#[local] Notation "x <- c ;; k" := (bind c (fun x => k))
  (at level 61, c at next level, right associativity).

Definition check (b : bool) (e : error) : M unit :=
  if b then ret tt else raise e.

Fixpoint mapM {A B} (f : A -> M B) (l : list A) : M (list B) :=
  match l with
  | [] => ret []
  | a :: l' => b <- f a ;; bs <- mapM f l' ;; ret (b :: bs)
  end.

Fixpoint foldM {A B} (f : B -> A -> M B) (l : list A) (b : B) : M B :=
  match l with
  | [] => ret b
  | a :: l' => b' <- f b a ;; foldM f l' b'
  end.

End Monad.

Notation "x <- c ;; k" := (bind c (fun x => k))
  (at level 61, c at next level, right associativity).

(** ** Tensors *)

#[warnings="-notation-for-abbreviation"]
Notation vec := (list R) (only parsing).
#[warnings="-notation-for-abbreviation"]
Notation mat := (list (list R)) (only parsing).

(** Extended reals of the masked attention scores. *)
Inductive xreal : Type :=
  | NegInf
  | Fin (r : R).

(** A float tensor of size (B, T, C); B is the number of sequences stored. *)
Record tensor3 (A : Type) : Type := T3 {
  dimT : nat;
  dimC : nat;
  data : list (list (list A))
}.

Arguments T3 {A} dimT dimC data.
Arguments dimT {A} t.
Arguments dimC {A} t.
Arguments data {A} t.

(** A float tensor of size (N, V). *)
Record tensor2 : Type := T2 {
  dimN : nat;
  dimV : nat;
  rows2 : mat
}.

(** An integer tensor of size (B, T): token ids. *)
Record tokens : Type := Tok {
  tokT : nat;
  tokRows : list (list nat)
}.

Definition tokB (a : tokens) : nat := length (tokRows a).

Definition wf_tokens (a : tokens) : Prop :=
  Forall (fun r => length r = tokT a) (tokRows a).

Definition has_shape {A} (B T C : nat) (x : tensor3 A) : Prop :=
  dimT x = T /\ dimC x = C /\ length (data x) = B /\
  Forall (fun m => length m = T /\ Forall (fun r => length r = C) m) (data x).

Definition has_shape2 (N V : nat) (x : tensor2) : Prop :=
  dimN x = N /\ dimV x = V /\ length (rows2 x) = N /\
  Forall (fun r => length r = V) (rows2 x).

(** ** Entry-level arithmetic *)

Open Scope R_scope.

Definition tab {A} (n : nat) (f : nat -> A) : list A := map f (seq 0 n).

Definition mat_get (m : mat) (i j : nat) : R := nth j (nth i m []) 0.

Fixpoint map2 {A B C} (f : A -> B -> C) (l : list A) (l' : list B) : list C :=
  match l, l' with
  | a :: t, b :: t' => f a b :: map2 f t t'
  | _, _ => []
  end.

Definition rsum (l : list R) : R := fold_right Rplus 0 l.

Definition dot (a b : vec) : R := rsum (map2 Rmult a b).

Definition vadd (a b : vec) : vec := map2 Rplus a b.

Definition column (c : nat) (m : mat) : vec := map (fun r => nth c r 0) m.

(** A row-wise map that sets the width of the result. *)
Definition map_rows {A B} (f : list A -> list B) (C' : nat) (x : tensor3 A)
  : tensor3 B :=
  T3 (dimT x) C' (map (map f) (data x)).

(** ** torch primitives used by the model *)

Section Torch.

Context {RT : Runtime}.

(** [x.transpose(-2, -1)] *)
Definition transpose (x : tensor3 R) : tensor3 R :=
  T3 (dimC x) (dimT x)
     (map (fun m => tab (dimC x) (fun c => tab (dimT x) (fun t => mat_get m t c)))
          (data x)).

(** [a @ b] on batched matrices of the same batch size. *)
Definition matmul (a b : tensor3 R) : M (tensor3 R) :=
  _ <- check ((dimC a =? dimT b)%nat && (length (data a) =? length (data b))%nat)
             ShapeMismatch ;;
  ret (T3 (dimT a) (dimC b)
          (map2 (fun ma mb =>
                   map (fun r => tab (dimC b) (fun c => dot r (column c mb))) ma)
                (data a) (data b))).

(** [x * c] for a scalar [c]. *)
Definition scale (x : tensor3 R) (c : R) : tensor3 R :=
  map_rows (map (fun v => v * c)) (dimC x) x.

(** [C ** -0.5] on a Python int [C]. *)
Definition pow_neg_half (C : nat) : M R :=
  match C with
  | O => raise ZeroDivisionError
  | S _ => ret (Rpower (INR C) (- / 2))
  end.

(** [torch.tril(torch.ones(n, n))] *)
Definition tril_ones (n : nat) : tensor2 :=
  T2 n n (tab n (fun i => tab n (fun j => if (j <=? i)%nat then 1 else 0))).

(** [t[:r, :c]] *)
Definition slice2 (t : tensor2) (r c : nat) : tensor2 :=
  T2 (Nat.min r (dimN t)) (Nat.min c (dimV t))
     (map (firstn c) (firstn r (rows2 t))).

(** A boolean tensor of size (N, V). *)
Record btensor2 : Type := BT2 {
  bdimN : nat;
  bdimV : nat;
  brows : list (list bool)
}.

(** [t == 0] *)
Definition eq_zero (t : tensor2) : btensor2 :=
  BT2 (dimN t) (dimV t)
      (map (map (fun v => if Req_dec_T v 0 then true else false)) (rows2 t)).

Definition bget (m : btensor2) (i j : nat) : bool :=
  nth j (nth i (brows m) []) false.

(** [x.masked_fill(mask, float('-inf'))]; the mask is broadcast over the
    batch, and a dimension of size one over the matching dimension of [x]. *)
Definition masked_fill (x : tensor3 R) (mask : btensor2) : M (tensor3 xreal) :=
  _ <- check (((bdimN mask =? dimT x)%nat || (bdimN mask =? 1)%nat) &&
              ((bdimV mask =? dimC x)%nat || (bdimV mask =? 1)%nat))
             ShapeMismatch ;;
  let bi i := if (bdimN mask =? dimT x)%nat then i else O in
  let bj j := if (bdimV mask =? dimC x)%nat then j else O in
  ret (T3 (dimT x) (dimC x)
          (map (fun m =>
                  tab (dimT x) (fun i =>
                    tab (dimC x) (fun j =>
                      if bget mask (bi i) (bj j) then NegInf
                      else Fin (mat_get m i j))))
               (data x))).

Definition xexp (v : xreal) : R :=
  match v with
  | NegInf => 0
  | Fin r => exp r
  end.

Definition is_neg_inf (v : xreal) : bool :=
  match v with
  | NegInf => true
  | Fin _ => false
  end.

(** Softmax of one row: exp(x_j) / sum_k exp(x_k).  A non-empty row that
    is entirely [-inf] yields [nan]. *)
Definition softmax_row (row : list xreal) : M vec :=
  match row with
  | [] => ret []
  | _ :: _ =>
      if forallb is_neg_inf row then raise NonFinite
      else ret (map (fun v => xexp v / rsum (map xexp row)) row)
  end.

(** [F.softmax(x, dim=-1)] *)
Definition softmax (x : tensor3 xreal) : M (tensor3 R) :=
  d <- mapM (mapM softmax_row) (data x) ;;
  ret (T3 (dimT x) (dimC x) d).

(** [F.softmax(x, dim=-1)] on a two-dimensional tensor of finite entries. *)
Definition softmax2 (x : tensor2) : M tensor2 :=
  d <- mapM (fun r => softmax_row (map Fin r)) (rows2 x) ;;
  ret (T2 (dimN x) (dimV x) d).

(** [a + b] on tensors of the same size (the residual additions of
    [Block.forward]; no dimension of size one is broadcast there). *)
Definition add (a b : tensor3 R) : M (tensor3 R) :=
  _ <- check ((dimT a =? dimT b)%nat && (dimC a =? dimC b)%nat &&
              (length (data a) =? length (data b))%nat) ShapeMismatch ;;
  ret (T3 (dimT a) (dimC a) (map2 (map2 vadd) (data a) (data b))).

(** [a + b] with [b] of size (T, C) broadcast over the batch. *)
Definition add_broadcast (a : tensor3 R) (b : tensor2) : M (tensor3 R) :=
  _ <- check ((dimT a =? dimN b)%nat && (dimC a =? dimV b)%nat) ShapeMismatch ;;
  ret (T3 (dimT a) (dimC a) (map (fun m => map2 vadd m (rows2 b)) (data a))).

Definition cat2 (a b : tensor3 R) : M (tensor3 R) :=
  _ <- check ((dimT a =? dimT b)%nat && (length (data a) =? length (data b))%nat)
             ShapeMismatch ;;
  ret (T3 (dimT a) (dimC a + dimC b)
          (map2 (map2 (@app R)) (data a) (data b))).

(** [torch.cat(xs, dim=-1)] *)
Definition cat (xs : list (tensor3 R)) : M (tensor3 R) :=
  match xs with
  | [] => raise EmptyCat
  | x :: xs' => foldM cat2 xs' x
  end.

(** [torch.cat((idx, idx_next), dim=1)] on token arrays. *)
Definition cat_tokens (a b : tokens) : M tokens :=
  _ <- check (tokB a =? tokB b)%nat ShapeMismatch ;;
  ret (Tok (tokT a + tokT b) (map2 (@app nat) (tokRows a) (tokRows b))).

(** [x[:, -1, :]] *)
Definition select_last (x : tensor3 R) : M tensor2 :=
  match dimT x with
  | O => raise IndexError
  | S t => ret (T2 (length (data x)) (dimC x) (map (fun m => nth t m []) (data x)))
  end.

(** [idx[:, -n:]]: Python reads [-0] as [0], so [n = 0] keeps everything. *)
Definition last_columns (n : nat) (idx : tokens) : tokens :=
  match n with
  | O => idx
  | S _ => Tok (Nat.min n (tokT idx))
               (map (fun r => skipn (length r - n) r) (tokRows idx))
  end.

(** [x.view(B*T, C)] *)
Definition view2 (x : tensor3 R) : tensor2 :=
  T2 (length (data x) * dimT x) (dimC x) (concat (data x)).

(** [targets.view(B*T)] for a (B, T) logits tensor. *)
Definition view1 (n : nat) (t : tokens) : M (list nat) :=
  _ <- check (tokB t * tokT t =? n)%nat ShapeMismatch ;;
  ret (concat (tokRows t)).

(** The loss is a float scalar; the mean over zero rows is [nan]. *)
Inductive scalar : Type :=
  | NaN
  | Val (r : R).

(** [F.cross_entropy(logits, targets)]: mean over the rows of
    log(sum_k exp(l_k)) - l_target.  Token ids are natural numbers, so the
    default [ignore_index = -100] never applies. *)
Definition nll_row (row : vec) (target : nat) : R :=
  ln (rsum (map exp row)) - nth target row 0.

Definition cross_entropy (logits : tensor2) (targets : list nat) : M scalar :=
  _ <- check (dimN logits =? length targets)%nat ShapeMismatch ;;
  _ <- check (forallb (fun t => (t <? dimV logits)%nat) targets) IndexError ;;
  match dimN logits with
  | O => ret NaN
  | S _ => ret (Val (rsum (map2 nll_row (rows2 logits) targets) / INR (dimN logits)))
  end.

(** [torch.multinomial(probs, num_samples=1)]: one index per row. *)
Definition multinomial (probs : tensor2) : M tokens :=
  _ <- check (negb (dimV probs =? 0)%nat) BadDistribution ;;
  d <- mapM (fun row s => inr (let (i, s') := draw_index row s in ([i], s')))
            (rows2 probs) ;;
  ret (Tok 1 d).

End Torch.

(** ** torch.nn layers *)

Module Linear.
Section Linear.
Context {RT : Runtime}.

(** [weight] has size (out_features, in_features). *)
Record t : Type := Make {
  in_features : nat;
  out_features : nat;
  weight : mat;
  bias : option vec
}.

Definition apply (l : t) (x : vec) : vec :=
  match bias l with
  | None => tab (out_features l) (fun o => dot x (nth o (weight l) []))
  | Some b => tab (out_features l) (fun o => dot x (nth o (weight l) []) + nth o b 0)
  end.

Definition forward (l : t) (x : tensor3 R) : M (tensor3 R) :=
  _ <- check (dimC x =? in_features l)%nat ShapeMismatch ;;
  ret (map_rows (apply l) (out_features l) x).

Fixpoint draw_vec (n : nat) : M vec :=
  match n with
  | O => ret []
  | S n' => v <- (fun s => inr (draw_param s)) ;; vs <- draw_vec n' ;; ret (v :: vs)
  end.

Fixpoint draw_mat (r c : nat) : M mat :=
  match r with
  | O => ret []
  | S r' => v <- draw_vec c ;; vs <- draw_mat r' c ;; ret (v :: vs)
  end.

(** [nn.Linear(i, o, bias=b)] *)
Definition init (i o : nat) (b : bool) : M t :=
  w <- draw_mat o i ;;
  if b then bs <- draw_vec o ;; ret (Make i o w (Some bs))
  else ret (Make i o w None).

End Linear.
End Linear.

Module LayerNorm.
Section LayerNorm.
Context {RT : Runtime}.

Record t : Type := Make {
  normalized_shape : nat;
  weight : vec;
  bias : vec
}.

Definition eps : R := / 100000.

Definition mean (x : vec) : R := rsum x / INR (length x).

Definition var (x : vec) : R :=
  rsum (map (fun v => (v - mean x) * (v - mean x)) x) / INR (length x).

Definition apply (l : t) (x : vec) : vec :=
  tab (normalized_shape l)
      (fun c => (nth c x 0 - mean x) / sqrt (var x + eps) * nth c (weight l) 0
                + nth c (bias l) 0).

Definition forward (l : t) (x : tensor3 R) : M (tensor3 R) :=
  _ <- check (dimC x =? normalized_shape l)%nat ShapeMismatch ;;
  ret (map_rows (apply l) (normalized_shape l) x).

(** [nn.LayerNorm(n)]: weight ones, bias zeros. *)
Definition init (n : nat) : M t :=
  ret (Make n (repeat 1 n) (repeat 0 n)).

End LayerNorm.
End LayerNorm.

Module Dropout.
Section Dropout.
Context {RT : Runtime}.

Record t : Type := Make {
  p : R;
  training : bool
}.

(** Dropout is the identity in eval mode and when p = 0. *)
Definition disabled (d : t) : bool :=
  negb (training d) || (if Req_dec_T (p d) 0 then true else false).

Definition drop_entry (d : t) (v : R) : M R :=
  fun s => let (keep, s') := draw_keep (p d) s in
           inr (if keep then v / (1 - p d) else 0, s').

Definition forward (d : t) (x : tensor3 R) : M (tensor3 R) :=
  if disabled d then ret x
  else
    y <- mapM (mapM (mapM (drop_entry d))) (data x) ;;
    ret (T3 (dimT x) (dimC x) y).

(** [nn.Dropout(p)]: a new module is in training mode. *)
Definition init (prob : R) : M t :=
  if Rle_dec 0 prob then
    if Rle_dec prob 1 then ret (Make prob true) else raise ValueError
  else raise ValueError.

End Dropout.
End Dropout.

Module Embedding.
Section Embedding.
Context {RT : Runtime}.

Record t : Type := Make {
  num_embeddings : nat;
  embedding_dim : nat;
  weight : mat
}.

Definition row (e : t) (i : nat) : vec :=
  tab (embedding_dim e) (fun c => mat_get (weight e) i c).

(** [F.embedding] is [weight.index_select(0, idx)].  When there is an index
    to look up, a table without rows is refused (a RuntimeError) before any
    index is compared with the number of rows; an index that is not below
    the number of rows is an IndexError. *)
Definition lookup (e : t) (idx : list nat) : M mat :=
  _ <- check (match idx with
              | [] => true
              | _ :: _ => negb (num_embeddings e =? 0)%nat
              end) EmptyTable ;;
  _ <- check (forallb (fun i => (i <? num_embeddings e)%nat) idx) IndexError ;;
  ret (map (row e) idx).

(** On a (B, T) token array: the indices are looked up row by row, which
    fails as the lookup of the flattened array does (an array without
    entries passes, an empty table is refused at the first entry). *)
Definition forward (e : t) (idx : tokens) : M (tensor3 R) :=
  d <- mapM (lookup e) (tokRows idx) ;;
  ret (T3 (tokT idx) (embedding_dim e) d).

(** On [torch.arange(n)]. *)
Definition forward_arange (e : t) (n : nat) : M tensor2 :=
  d <- lookup e (seq 0 n) ;;
  ret (T2 n (embedding_dim e) d).

Definition init (n d : nat) : M t :=
  w <- Linear.draw_mat n d ;;
  ret (Make n d w).

End Embedding.
End Embedding.

(** ** model.py *)

Module Config.

Record t : Type := Make {
  vocab_size : nat;
  n_embd : nat;
  n_head : nat;
  n_layer : nat;
  block_size : nat;
  dropout : R
}.

End Config.

Module Head.
Section Head.
Context {RT : Runtime}.

Record t : Type := Make {
  key : Linear.t;
  query : Linear.t;
  value : Linear.t;
  tril : tensor2;
  dropout : Dropout.t
}.

Definition init (head_size : nat) (config : Config.t) : M t :=
  k <- Linear.init (Config.n_embd config) head_size false ;;
  q <- Linear.init (Config.n_embd config) head_size false ;;
  v <- Linear.init (Config.n_embd config) head_size false ;;
  d <- Dropout.init (Config.dropout config) ;;
  ret (Make k q v (tril_ones (Config.block_size config)) d).

(** Line 30: [q @ k.transpose(-2, -1) * C**-0.5]. *)
Definition scores (q k : tensor3 R) (C : nat) : M (tensor3 R) :=
  qk <- matmul q (transpose k) ;;
  c <- pow_neg_half C ;;
  ret (scale qk c).

Definition forward (h : t) (x : tensor3 R) : M (tensor3 R) :=
  let T := dimT x in
  let C := dimC x in
  k <- Linear.forward (key h) x ;;
  q <- Linear.forward (query h) x ;;
  wei <- scores q k C ;;
  wei <- masked_fill wei (eq_zero (slice2 (tril h) T T)) ;;
  wei <- softmax wei ;;
  wei <- Dropout.forward (dropout h) wei ;;
  v <- Linear.forward (value h) x ;;
  matmul wei v.

End Head.
End Head.

Module MultiHeadAttention.
Section MultiHeadAttention.
Context {RT : Runtime}.

Record t : Type := Make {
  heads : list Head.t;
  proj : Linear.t;
  dropout : Dropout.t
}.

Definition init (num_heads head_size : nat) (config : Config.t) : M t :=
  hs <- mapM (fun _ => Head.init head_size config) (seq 0 num_heads) ;;
  pr <- Linear.init (Config.n_embd config) (Config.n_embd config) true ;;
  d <- Dropout.init (Config.dropout config) ;;
  ret (Make hs pr d).

Definition forward (a : t) (x : tensor3 R) : M (tensor3 R) :=
  outs <- mapM (fun h => Head.forward h x) (heads a) ;;
  out <- cat outs ;;
  out <- Linear.forward (proj a) out ;;
  Dropout.forward (dropout a) out.

End MultiHeadAttention.
End MultiHeadAttention.

Module FeedForward.
Section FeedForward.
Context {RT : Runtime}.

(** [net = Sequential(Linear, GELU, Linear, Dropout)] *)
Record t : Type := Make {
  fc1 : Linear.t;
  fc2 : Linear.t;
  dropout : Dropout.t
}.

Definition init (n_embd : nat) (config : Config.t) : M t :=
  l1 <- Linear.init n_embd (4 * n_embd) true ;;
  l2 <- Linear.init (4 * n_embd) n_embd true ;;
  d <- Dropout.init (Config.dropout config) ;;
  ret (Make l1 l2 d).

Definition GELU (x : tensor3 R) : tensor3 R :=
  map_rows (map gelu) (dimC x) x.

Definition forward (f : t) (x : tensor3 R) : M (tensor3 R) :=
  x <- Linear.forward (fc1 f) x ;;
  x <- Linear.forward (fc2 f) (GELU x) ;;
  Dropout.forward (dropout f) x.

End FeedForward.
End FeedForward.

Module Block.
Section Block.
Context {RT : Runtime}.

Record t : Type := Make {
  sa : MultiHeadAttention.t;
  ffwd : FeedForward.t;
  ln1 : LayerNorm.t;
  ln2 : LayerNorm.t
}.

(** [n_embd // n_head] *)
Definition floordiv (a b : nat) : M nat :=
  match b with
  | O => raise ZeroDivisionError
  | S _ => ret (a / b)%nat
  end.

Definition init (config : Config.t) (n_embd n_head : nat) : M t :=
  head_size <- floordiv n_embd n_head ;;
  a <- MultiHeadAttention.init n_head head_size config ;;
  f <- FeedForward.init n_embd config ;;
  l1 <- LayerNorm.init n_embd ;;
  l2 <- LayerNorm.init n_embd ;;
  ret (Make a f l1 l2).

Definition forward (b : t) (x : tensor3 R) : M (tensor3 R) :=
  n <- LayerNorm.forward (ln1 b) x ;;
  a <- MultiHeadAttention.forward (sa b) n ;;
  x <- add x a ;;
  n <- LayerNorm.forward (ln2 b) x ;;
  f <- FeedForward.forward (ffwd b) n ;;
  add x f.

End Block.
End Block.

Module BigramLanguageModel.
Section BigramLanguageModel.
Context {RT : Runtime}.

Record t : Type := Make {
  config : Config.t;
  token_embedding_table : Embedding.t;
  position_embedding_table : Embedding.t;
  blocks : list Block.t;
  ln_f : LayerNorm.t;
  lm_head : Linear.t
}.

Definition init (config : Config.t) : M t :=
  te <- Embedding.init (Config.vocab_size config) (Config.n_embd config) ;;
  pe <- Embedding.init (Config.block_size config) (Config.n_embd config) ;;
  bs <- mapM (fun _ => Block.init config (Config.n_embd config) (Config.n_head config))
             (seq 0 (Config.n_layer config)) ;;
  lf <- LayerNorm.init (Config.n_embd config) ;;
  lh <- Linear.init (Config.n_embd config) (Config.vocab_size config) true ;;
  ret (Make config te pe bs lf lh).

(** Lines 101-106: the logits of size (B, T, vocab_size). *)
Definition logits3 (m : t) (idx : tokens) : M (tensor3 R) :=
  let T := tokT idx in
  tok_emb <- Embedding.forward (token_embedding_table m) idx ;;
  pos_emb <- Embedding.forward_arange (position_embedding_table m) T ;;
  x <- add_broadcast tok_emb pos_emb ;;
  x <- foldM (fun x b => Block.forward b x) (blocks m) x ;;
  x <- LayerNorm.forward (ln_f m) x ;;
  Linear.forward (lm_head m) x.

(** What [forward] returns as logits: of size (B, T, C) or (B*T, C). *)
Inductive logits_t : Type :=
  | Logits3 (x : tensor3 R)
  | Logits2 (x : tensor2).

Definition forward (m : t) (idx : tokens) (targets : option tokens)
  : M (logits_t * option scalar) :=
  logits <- logits3 m idx ;;
  match targets with
  | None => ret (Logits3 logits, None)
  | Some targets =>
      let B := length (data logits) in
      let T := dimT logits in
      let logits := view2 logits in
      targets <- view1 (B * T) targets ;;
      loss <- cross_entropy logits targets ;;
      ret (Logits2 logits, Some loss)
  end.

(** One iteration of the loop of [generate] up to the sampling:
    the distribution the next token is drawn from. *)
Definition next_probs (m : t) (idx : tokens) : M tensor2 :=
  let idx_cond := last_columns (Config.block_size (config m)) idx in
  r <- forward m idx_cond None ;;
  match fst r with
  | Logits3 logits =>
      logits <- select_last logits ;;
      softmax2 logits
  | Logits2 _ => raise IndexError
  end.

Definition generate_step (m : t) (idx : tokens) : M tokens :=
  probs <- next_probs m idx ;;
  idx_next <- multinomial probs ;;
  cat_tokens idx idx_next.

Fixpoint generate (m : t) (idx : tokens) (max_new_tokens : nat) : M tokens :=
  match max_new_tokens with
  | O => ret idx
  | S n => idx <- generate_step m idx ;; generate m idx n
  end.

End BigramLanguageModel.
End BigramLanguageModel.

(** ** Configurations and the models built from them *)

Definition valid_config (c : Config.t) : Prop :=
  (1 <= Config.vocab_size c)%nat /\
  (1 <= Config.n_embd c)%nat /\
  (1 <= Config.n_head c)%nat /\
  (Config.n_embd c mod Config.n_head c = 0)%nat /\
  (1 <= Config.block_size c)%nat /\
  0 <= Config.dropout c < 1.

Definition Linear_sized (i o : nat) (l : Linear.t) : Prop :=
  Linear.in_features l = i /\ Linear.out_features l = o.

Definition Head_built (c : Config.t) (head_size : nat) (h : Head.t) : Prop :=
  Linear_sized (Config.n_embd c) head_size (Head.key h) /\
  Linear_sized (Config.n_embd c) head_size (Head.query h) /\
  Linear_sized (Config.n_embd c) head_size (Head.value h) /\
  Head.tril h = tril_ones (Config.block_size c).

Definition MultiHeadAttention_built (c : Config.t) (num_heads head_size : nat)
  (a : MultiHeadAttention.t) : Prop :=
  length (MultiHeadAttention.heads a) = num_heads /\
  Forall (Head_built c head_size) (MultiHeadAttention.heads a) /\
  Linear_sized (Config.n_embd c) (Config.n_embd c) (MultiHeadAttention.proj a).

Definition FeedForward_built (n_embd : nat) (f : FeedForward.t) : Prop :=
  Linear_sized n_embd (4 * n_embd) (FeedForward.fc1 f) /\
  Linear_sized (4 * n_embd) n_embd (FeedForward.fc2 f).

Definition Block_built (c : Config.t) (n_embd n_head : nat) (b : Block.t) : Prop :=
  MultiHeadAttention_built c n_head (n_embd / n_head) (Block.sa b) /\
  FeedForward_built n_embd (Block.ffwd b) /\
  LayerNorm.normalized_shape (Block.ln1 b) = n_embd /\
  LayerNorm.normalized_shape (Block.ln2 b) = n_embd.

(** The sizes [BigramLanguageModel.__init__] gives a model; the parameter
    values are left free, since training changes them. *)
Definition built (c : Config.t) (m : BigramLanguageModel.t) : Prop :=
  BigramLanguageModel.config m = c /\
  Embedding.num_embeddings (BigramLanguageModel.token_embedding_table m)
    = Config.vocab_size c /\
  Embedding.embedding_dim (BigramLanguageModel.token_embedding_table m)
    = Config.n_embd c /\
  Embedding.num_embeddings (BigramLanguageModel.position_embedding_table m)
    = Config.block_size c /\
  Embedding.embedding_dim (BigramLanguageModel.position_embedding_table m)
    = Config.n_embd c /\
  length (BigramLanguageModel.blocks m) = Config.n_layer c /\
  Forall (Block_built c (Config.n_embd c) (Config.n_head c))
         (BigramLanguageModel.blocks m) /\
  LayerNorm.normalized_shape (BigramLanguageModel.ln_f m) = Config.n_embd c /\
  Linear_sized (Config.n_embd c) (Config.vocab_size c)
               (BigramLanguageModel.lm_head m).

(** Dropout switched off in every module of the model. *)
Definition Head_eval (h : Head.t) : Prop :=
  Dropout.disabled (Head.dropout h) = true.

Definition Block_eval (b : Block.t) : Prop :=
  Forall Head_eval (MultiHeadAttention.heads (Block.sa b)) /\
  Dropout.disabled (MultiHeadAttention.dropout (Block.sa b)) = true /\
  Dropout.disabled (FeedForward.dropout (Block.ffwd b)) = true.

Definition dropout_disabled (m : BigramLanguageModel.t) : Prop :=
  Forall Block_eval (BigramLanguageModel.blocks m).

(** Token arrays. *)
Definition tokens_in_vocab (V : nat) (idx : tokens) : Prop :=
  Forall (Forall (fun t => (t < V)%nat)) (tokRows idx).

Fixpoint set_nth {A} (n : nat) (a : A) (l : list A) : list A :=
  match l, n with
  | [], _ => []
  | _ :: t, O => a :: t
  | x :: t, S n' => x :: set_nth n' a t
  end.

(** The token array with entry (b, j) replaced by [tok]. *)
Definition set_token (idx : tokens) (b j tok : nat) : tokens :=
  Tok (tokT idx)
      (set_nth b (set_nth j tok (nth b (tokRows idx) [])) (tokRows idx)).




(** Row i of every sequence is [-inf] to the right of the diagonal. *)
Definition causal_mask (T : nat) (m : mat) : list (list xreal) :=
  tab T (fun i => tab T (fun j =>
    if (j <=? i)%nat then Fin (mat_get m i j) else NegInf)).

Definition softmax_val (row : list xreal) : vec :=
  map (fun v => xexp v / rsum (map xexp row)) row.

(** A runtime for closed examples: GELU replaced by the identity, a unit
    generator state, every draw the first alternative. *)
Definition example_runtime : Runtime.
Proof.
  refine {| gelu := fun x => x;
            rng := unit;
            draw_param := fun s => (0, s);
            draw_keep := fun _ s => (true, s);
            draw_index := fun _ s => (O, s) |}.
  intros [|x l] s H; [congruence | simpl; lia].
Defined.

(** What lines 27-32 of [Head.forward] compute on one sequence [m] of a
    batch with [T] rows of width [C]: the attention weights. *)
Definition attention_weights (h : Head.t) (T C : nat) (m : mat) : mat :=
  let k := map (Linear.apply (Head.key h)) m in
  let q := map (Linear.apply (Head.query h)) m in
  let kT := tab (Linear.out_features (Head.key h))
                (fun c => tab T (fun t => mat_get k t c)) in
  let qk := map (fun r => tab T (fun j => dot r (column j kT))) q in
  let wei := map (map (fun v => v * Rpower (INR C) (- / 2))) qk in
  map softmax_val (causal_mask T wei).

(** [wei @ v] on one sequence. *)
Definition weighted_values (h : Head.t) (w m : mat) : mat :=
  map (fun r => tab (Linear.out_features (Head.value h))
                    (fun c => dot r (column c (map (Linear.apply (Head.value h)) m))))
      w.

Definition attend (h : Head.t) (T C : nat) (m : mat) : mat :=
  weighted_values h (attention_weights h T C m) m.

(** Lines 101-103 on a token array: token embedding plus position
    embedding. *)
Definition embedded {RT : Runtime} (m : BigramLanguageModel.t) (idx : tokens)
  : tensor3 R :=
  T3 (tokT idx)
     (Embedding.embedding_dim (BigramLanguageModel.token_embedding_table m))
     (map (fun r =>
             map2 vadd
               (map (Embedding.row (BigramLanguageModel.token_embedding_table m)) r)
               (map (Embedding.row (BigramLanguageModel.position_embedding_table m))
                    (seq 0 (tokT idx))))
          (tokRows idx)).



(** ** A concrete model

    The configuration of the example scenario (vocab_size = 5, n_embd = 4,
    n_head = 2, n_layer = 1, block_size = 3, dropout = 0), a model of these
    sizes in eval mode with all weights zero, and the prompt [[0, 1, 2]]. *)

Definition zeros (r c : nat) : list (list R) := repeat (repeat 0 c) r.

Definition cfg0 : Config.t := Config.Make 5 4 2 1 3 0.

Definition eval_dropout : Dropout.t := Dropout.Make 0 false.

Definition head0 : Head.t :=
  Head.Make (Linear.Make 4 2 (zeros 2 4) None)
            (Linear.Make 4 2 (zeros 2 4) None)
            (Linear.Make 4 2 (zeros 2 4) None)
            (T2 3 3 [[1; 0; 0]; [1; 1; 0]; [1; 1; 1]])
            eval_dropout.

Definition block0 : Block.t :=
  Block.Make
    (MultiHeadAttention.Make [head0; head0]
       (Linear.Make 4 4 (zeros 4 4) (Some (repeat 0 4))) eval_dropout)
    (FeedForward.Make (Linear.Make 4 16 (zeros 16 4) (Some (repeat 0 16)))
                      (Linear.Make 16 4 (zeros 4 16) (Some (repeat 0 4)))
                      eval_dropout)
    (LayerNorm.Make 4 (repeat 1 4) (repeat 0 4))
    (LayerNorm.Make 4 (repeat 1 4) (repeat 0 4)).

Definition model0 : BigramLanguageModel.t :=
  BigramLanguageModel.Make cfg0
    (Embedding.Make 5 4 (zeros 5 4))
    (Embedding.Make 3 4 (zeros 3 4))
    [block0]
    (LayerNorm.Make 4 (repeat 1 4) (repeat 0 4))
    (Linear.Make 4 5 (zeros 5 4) (Some (repeat 0 5))).

Definition idx0 : tokens := Tok 3 [[0; 1; 2]]%nat.

(** A prompt longer than the block size. *)
Definition idx_long : tokens := Tok 4 [[0; 1; 2; 3]]%nat.

(** A configuration in which [n_head] does not divide [n_embd]. *)
Definition cfg_odd : Config.t := Config.Make 5 5 2 1 3 0.

(** An activation of shape (1, 3, 4). *)
Definition x0 : tensor3 R := T3 3 4 [zeros 3 4].

(** What [FeedForward.net] without dropout does to one row: line 58-60. *)
Definition ff_row {RT : Runtime} (f : FeedForward.t) (r : vec) : vec :=
  Linear.apply (FeedForward.fc2 f) (map gelu (Linear.apply (FeedForward.fc1 f) r)).

(** A property of every Dropout module of a block. *)
Definition Block_dropouts (P : Dropout.t -> Prop) (b : Block.t) : Prop :=
  Forall (fun h => P (Head.dropout h)) (MultiHeadAttention.heads (Block.sa b)) /\
  P (MultiHeadAttention.dropout (Block.sa b)) /\
  P (FeedForward.dropout (Block.ffwd b)).

(** Configurations rejected at construction. *)
Definition cfg_no_head : Config.t := Config.Make 5 4 0 1 3 0.
Definition cfg_bad_dropout : Config.t := Config.Make 5 4 2 1 3 2.
Definition cfg_no_layer : Config.t := Config.Make 5 4 0 0 3 2.

(** A head of width 2 on inputs of width 4 whose keys and queries are the
    first two coordinates of the input, and an input whose first row has
    query . key = 2. *)
Definition head1 : Head.t :=
  Head.Make (Linear.Make 4 2 [[1; 0; 0; 0]; [0; 1; 0; 0]] None)
            (Linear.Make 4 2 [[1; 0; 0; 0]; [0; 1; 0; 0]] None)
            (Linear.Make 4 2 [[1; 0; 0; 0]; [0; 1; 0; 0]] None)
            (T2 3 3 [[1; 0; 0]; [1; 1; 0]; [1; 1; 1]])
            eval_dropout.

Definition x1 : tensor3 R :=
  T3 3 4 [[[1; 1; 0; 0]; [1; 0; 0; 0]; [0; 0; 0; 0]]].



(** ** The logits in IEEE 754 binary32

    Lines 99-106 of [BigramLanguageModel.forward] once more, on binary32
    values (precision 24, emax 128, round to nearest even) instead of exact
    reals, layer by layer as above.  The float32 map of a [Block] involves
    exp and erf, which IEEE 754 does not define: [self.blocks] is the list
    of the maps of its blocks.  The order in which a torch kernel adds up
    the entries of a row is not fixed by the source; sums associate as
    [rsum] does. *)
Module Float32.

Definition prec : Z := 24.
Definition emax : Z := 128.

Definition f32 : Type := SpecFloat.spec_float.

Definition zero : f32 := SpecFloat.S754_zero false.

Definition of_Z (z : Z) : f32 := SpecFloat.binary_normalize prec emax z 0 false.

Definition add : f32 -> f32 -> f32 := SpecFloat.SFadd prec emax.
Definition sub : f32 -> f32 -> f32 := SpecFloat.SFsub prec emax.
Definition mul : f32 -> f32 -> f32 := SpecFloat.SFmul prec emax.
Definition div : f32 -> f32 -> f32 := SpecFloat.SFdiv prec emax.
Definition sqrt : f32 -> f32 := SpecFloat.SFsqrt prec emax.

(** [torch.isfinite] *)
Definition isfinite (v : f32) : bool :=
  match v with
  | SpecFloat.S754_zero _ | SpecFloat.S754_finite _ _ _ => true
  | SpecFloat.S754_infinity _ | SpecFloat.S754_nan => false
  end.

Definition fsum (l : list f32) : f32 := fold_right add zero l.

Definition dot (a b : list f32) : f32 := fsum (map2 mul a b).

Definition vadd (a b : list f32) : list f32 := map2 add a b.

(** Exceptions; no random number is drawn on these lines. *)
Definition M (A : Type) : Type := (error + A)%type.

Definition bind {A B} (c : M A) (f : A -> M B) : M B :=
  match c with
  | inl e => inl e
  | inr a => f a
  end.

Definition check (b : bool) (e : error) : M unit :=
  if b then inr tt else inl e.

Fixpoint mapM {A B} (f : A -> M B) (l : list A) : M (list B) :=
  match l with
  | [] => inr []
  | a :: l' => bind (f a) (fun b => bind (mapM f l') (fun bs => inr (b :: bs)))
  end.

Fixpoint foldM {A B} (f : B -> A -> M B) (l : list A) (b : B) : M B :=
  match l with
  | [] => inr b
  | a :: l' => bind (f b a) (foldM f l')
  end.

(** A float32 tensor of size (N, V). *)
Record tensor2 : Type := T2 {
  dimN : nat;
  dimV : nat;
  rows2 : list (list f32)
}.

Module Embedding.

Record t : Type := Make {
  num_embeddings : nat;
  embedding_dim : nat;
  weight : list (list f32)
}.

Definition row (e : t) (i : nat) : list f32 :=
  tab (embedding_dim e) (fun c => nth c (nth i (weight e) []) zero).

Definition lookup (e : t) (idx : list nat) : M (list (list f32)) :=
  bind (check (match idx with
               | [] => true
               | _ :: _ => negb (num_embeddings e =? 0)%nat
               end) EmptyTable) (fun _ =>
  bind (check (forallb (fun i => (i <? num_embeddings e)%nat) idx) IndexError) (fun _ =>
  inr (map (row e) idx))).

Definition forward (e : t) (idx : tokens) : M (tensor3 f32) :=
  bind (mapM (lookup e) (tokRows idx)) (fun d =>
  inr (T3 (tokT idx) (embedding_dim e) d)).

Definition forward_arange (e : t) (n : nat) : M tensor2 :=
  bind (lookup e (seq 0 n)) (fun d =>
  inr (T2 n (embedding_dim e) d)).

End Embedding.

Module LayerNorm.

Record t : Type := Make {
  normalized_shape : nat;
  weight : list f32;
  bias : list f32
}.

(** [eps = 1e-5], rounded to binary32. *)
Definition eps : f32 := div (of_Z 1) (of_Z 100000).

Definition mean (x : list f32) : f32 :=
  div (fsum x) (of_Z (Z.of_nat (length x))).

Definition var (x : list f32) : f32 :=
  div (fsum (map (fun v => mul (sub v (mean x)) (sub v (mean x))) x))
      (of_Z (Z.of_nat (length x))).

Definition apply (l : t) (x : list f32) : list f32 :=
  tab (normalized_shape l)
      (fun c => add (mul (div (sub (nth c x zero) (mean x))
                              (sqrt (add (var x) eps)))
                         (nth c (weight l) zero))
                    (nth c (bias l) zero)).

Definition forward (l : t) (x : tensor3 f32) : M (tensor3 f32) :=
  bind (check (dimC x =? normalized_shape l)%nat ShapeMismatch) (fun _ =>
  inr (map_rows (apply l) (normalized_shape l) x)).

End LayerNorm.

Module Linear.

Record t : Type := Make {
  in_features : nat;
  out_features : nat;
  weight : list (list f32);
  bias : option (list f32)
}.

Definition apply (l : t) (x : list f32) : list f32 :=
  match bias l with
  | None => tab (out_features l) (fun o => dot x (nth o (weight l) []))
  | Some b => tab (out_features l)
                  (fun o => add (dot x (nth o (weight l) [])) (nth o b zero))
  end.

Definition forward (l : t) (x : tensor3 f32) : M (tensor3 f32) :=
  bind (check (dimC x =? in_features l)%nat ShapeMismatch) (fun _ =>
  inr (map_rows (apply l) (out_features l) x)).

End Linear.

Definition add_broadcast (a : tensor3 f32) (b : tensor2) : M (tensor3 f32) :=
  bind (check ((dimT a =? dimN b)%nat && (dimC a =? dimV b)%nat) ShapeMismatch)
       (fun _ =>
  inr (T3 (dimT a) (dimC a) (map (fun m => map2 vadd m (rows2 b)) (data a)))).

Record t : Type := Make {
  token_embedding_table : Embedding.t;
  position_embedding_table : Embedding.t;
  blocks : list (tensor3 f32 -> M (tensor3 f32));
  ln_f : LayerNorm.t;
  lm_head : Linear.t
}.

(** Lines 99-106: the logits [forward] returns when [targets] is None. *)
Definition forward (m : t) (idx : tokens) : M (tensor3 f32) :=
  let T := tokT idx in
  bind (Embedding.forward (token_embedding_table m) idx) (fun tok_emb =>
  bind (Embedding.forward_arange (position_embedding_table m) T) (fun pos_emb =>
  bind (add_broadcast tok_emb pos_emb) (fun x =>
  bind (foldM (fun x b => b x) (blocks m) x) (fun x =>
  bind (LayerNorm.forward (ln_f m) x) (fun x =>
  Linear.forward (lm_head m) x))))).

End Float32.

(** A float32 model with vocab_size = 5, n_embd = 4, block_size = 3 and
    n_layer = 0 whose embedding tables hold 2^127 in every entry; the final
    LayerNorm has weight one and bias zero, as [nn.LayerNorm] initialises
    it, and the output layer is zero. *)
Definition two_127 : Float32.f32 := SpecFloat.S754_finite false 8388608 104.

Definition model_big : Float32.t :=
  Float32.Make
    (Float32.Embedding.Make 5 4 (repeat (repeat two_127 4) 5))
    (Float32.Embedding.Make 3 4 (repeat (repeat two_127 4) 3))
    []
    (Float32.LayerNorm.Make 4 (repeat (Float32.of_Z 1) 4) (repeat Float32.zero 4))
    (Float32.Linear.Make 4 5 (repeat (repeat Float32.zero 4) 5)
                         (Some (repeat Float32.zero 5))).

(** The same sizes with any blocks: the embedding tables are zero, the
    final LayerNorm has weight zero and bias two, and the output layer
    holds 2^127 in every entry of its weight. *)
Definition model_overflow (blocks : list (tensor3 Float32.f32
                                          -> Float32.M (tensor3 Float32.f32)))
  : Float32.t :=
  Float32.Make
    (Float32.Embedding.Make 5 4 (repeat (repeat Float32.zero 4) 5))
    (Float32.Embedding.Make 3 4 (repeat (repeat Float32.zero 4) 3))
    blocks
    (Float32.LayerNorm.Make 4 (repeat Float32.zero 4) (repeat (Float32.of_Z 2) 4))
    (Float32.Linear.Make 4 5 (repeat (repeat two_127 4) 5)
                         (Some (repeat Float32.zero 5))).


(** A layer that maps every sequence of a batch by one and the same
    function, returns for every batch size and leaves the generator state
    as it found it. *)
Definition seqwise {RT : Runtime} (T C C' : nat)
  (F : tensor3 R -> M (tensor3 R)) : Prop :=
  exists g : list (list R) -> list (list R),
    forall B x s, has_shape B T C x ->
      F x s = inr (T3 T C' (map g (data x)), s) /\
      has_shape B T C' (T3 T C' (map g (data x))).


(** * Lemmas *)

(** ** Lists *)

Lemma length_tab {A} (n : nat) (f : nat -> A) : length (tab n f) = n.
Proof. unfold tab. now rewrite length_map, length_seq. Qed.

Lemma nth_tab {A} (n : nat) (f : nat -> A) (i : nat) (d : A) :
  (i < n)%nat -> nth i (tab n f) d = f i.
Proof.
  intros Hi. unfold tab.
  rewrite (nth_indep _ d (f O)) by now rewrite length_map, length_seq.
  rewrite (map_nth f (seq 0 n) O i), seq_nth by assumption. reflexivity.
Qed.

Lemma tab_ext {A} (n : nat) (f g : nat -> A) :
  (forall i, (i < n)%nat -> f i = g i) -> tab n f = tab n g.
Proof.
  intros H. unfold tab. apply map_ext_in. intros i Hi.
  apply in_seq in Hi. apply H. lia.
Qed.

Lemma length_map2 {A B C} (f : A -> B -> C) (l : list A) (l' : list B) :
  length (map2 f l l') = Nat.min (length l) (length l').
Proof.
  revert l'. induction l as [|a l IH]; intros [|b l']; simpl; auto.
Qed.


Lemma Forall_map2 {A B C} (P : C -> Prop) (f : A -> B -> C)
      (l : list A) (l' : list B) :
  (forall i da db, (i < length l)%nat -> (i < length l')%nat ->
                   P (f (nth i l da) (nth i l' db))) ->
  Forall P (map2 f l l').
Proof.
  revert l'. induction l as [|a l IH]; intros [|b l'] H; simpl; constructor.
  - apply (H O a b); simpl; lia.
  - apply IH. intros i da db Hi Hi'. apply (H (S i) da db); simpl; lia.
Qed.

Lemma nth_map_lt {A B} (f : A -> B) (l : list A) (i : nat) (d : A) (d' : B) :
  (i < length l)%nat -> nth i (map f l) d' = f (nth i l d).
Proof.
  intros Hi. rewrite (nth_indep _ d' (f d)) by now rewrite length_map.
  apply map_nth.
Qed.












Lemma Forall2_right {A B} (P : B -> Prop) (l : list A) (l' : list B) :
  Forall2 (fun _ b => P b) l l' -> Forall P l'.
Proof. induction 1; constructor; auto. Qed.

Lemma Forall2_length_eq {A B} (R : A -> B -> Prop) (l : list A) (l' : list B) :
  Forall2 R l l' -> length l = length l'.
Proof. induction 1; simpl; congruence. Qed.

(** ** The monad *)

Section MonadLemmas.

Context {RT : Runtime}.

Lemma bind_inv {A B} (c : M A) (f : A -> M B) (s : rng) (r : B * rng) :
  bind c f s = inr r -> exists a s1, c s = inr (a, s1) /\ f a s1 = inr r.
Proof.
  unfold bind. destruct (c s) as [e|[a s1]]; [discriminate|]. eauto.
Qed.

Lemma bind_ok {A B} {c : M A} (f : A -> M B) {s s1 : rng} {a : A} :
  c s = inr (a, s1) -> bind c f s = f a s1.
Proof. unfold bind. now intros ->. Qed.

Lemma bind_err {A B} {c : M A} (f : A -> M B) {s : rng} {e : error} :
  c s = inl e -> bind c f s = inl e.
Proof. unfold bind. now intros ->. Qed.


Lemma ret_inv {A} (a : A) (s : rng) (r : A * rng) :
  ret a s = inr r -> r = (a, s).
Proof. unfold ret. intros H. now inversion H. Qed.

Lemma mapM_pure {A B} (f : A -> M B) (g : A -> B) (l : list A) (s : rng) :
  (forall a, In a l -> f a s = inr (g a, s)) ->
  mapM f l s = inr (map g l, s).
Proof.
  induction l as [|a l IH]; intros H; simpl; [reflexivity|].
  rewrite (bind_ok _ (H a (or_introl eq_refl))).
  rewrite (bind_ok _ (IH (fun x Hx => H x (or_intror Hx)))). reflexivity.
Qed.

Lemma mapM_ok {A B} (P : A -> B -> Prop) (f : A -> M B) (l : list A) :
  (forall a s, In a l -> exists b s', f a s = inr (b, s') /\ P a b) ->
  forall s, exists bs s', mapM f l s = inr (bs, s') /\ Forall2 P l bs.
Proof.
  induction l as [|a l IH]; intros H s; simpl.
  - exists [], s. split; [reflexivity | constructor].
  - destruct (H a s (or_introl eq_refl)) as (b & s1 & Hb & HP).
    destruct (IH (fun x t Hx => H x t (or_intror Hx)) s1) as (bs & s2 & Hbs & HF).
    exists (b :: bs), s2. rewrite (bind_ok _ Hb), (bind_ok _ Hbs).
    split; [reflexivity | now constructor].
Qed.





Lemma foldM_ok {A B} (P : B -> Prop) (f : B -> A -> M B) (l : list A) :
  (forall a b s, In a l -> P b -> exists b' s', f b a s = inr (b', s') /\ P b') ->
  forall b s, P b -> exists b' s', foldM f l b s = inr (b', s') /\ P b'.
Proof.
  induction l as [|a l IH]; intros H b s Hb; simpl.
  - exists b, s. split; [reflexivity | assumption].
  - destruct (H a b s (or_introl eq_refl) Hb) as (b1 & s1 & E & Hb1).
    rewrite (bind_ok _ E).
    apply IH; [|assumption]. intros x y t Hx. apply H. now right.
Qed.

End MonadLemmas.

(** Invert a successful run of a [bind] chain. *)
Ltac minv H :=
  repeat match type of H with
  | bind _ _ _ = inr _ =>
      let a := fresh "v" in let s := fresh "s" in
      let E := fresh "E" in
      apply bind_inv in H; destruct H as (a & s & E & H)
  end.

(** ** torch primitives: what they return when the sizes fit *)

Section TorchLemmas.

Context {RT : Runtime}.

Lemma check_ok {A} (b : bool) (e : error) (k : M A) (s : rng) :
  b = true -> bind (check b e) (fun _ => k) s = k s.
Proof. intros ->. reflexivity. Qed.

Lemma check_fail {A} (b : bool) (e : error) (k : M A) (s : rng) :
  b = false -> bind (check b e) (fun _ => k) s = inl e.
Proof. intros ->. reflexivity. Qed.

Lemma Linear_forward_eq (l : Linear.t) (x : tensor3 R) (s : rng) :
  dimC x = Linear.in_features l ->
  Linear.forward l x s
  = inr (map_rows (Linear.apply l) (Linear.out_features l) x, s).
Proof.
  intros H. unfold Linear.forward. rewrite check_ok; [reflexivity|].
  now apply Nat.eqb_eq.
Qed.

Lemma LayerNorm_forward_eq (l : LayerNorm.t) (x : tensor3 R) (s : rng) :
  dimC x = LayerNorm.normalized_shape l ->
  LayerNorm.forward l x s
  = inr (map_rows (LayerNorm.apply l) (LayerNorm.normalized_shape l) x, s).
Proof.
  intros H. unfold LayerNorm.forward. rewrite check_ok; [reflexivity|].
  now apply Nat.eqb_eq.
Qed.

Lemma matmul_eq (a b : tensor3 R) (s : rng) :
  dimC a = dimT b -> length (data a) = length (data b) ->
  matmul a b s
  = inr (T3 (dimT a) (dimC b)
            (map2 (fun ma mb =>
                     map (fun r => tab (dimC b) (fun c => dot r (column c mb))) ma)
                  (data a) (data b)), s).
Proof.
  intros H1 H2. unfold matmul. rewrite check_ok; [reflexivity|].
  apply andb_true_intro. split; now apply Nat.eqb_eq.
Qed.

Lemma pow_neg_half_eq (C : nat) (s : rng) :
  (1 <= C)%nat -> pow_neg_half C s = inr (Rpower (INR C) (- / 2), s).
Proof. destruct C; [lia | reflexivity]. Qed.

Lemma add_eq (a b : tensor3 R) (s : rng) :
  dimT a = dimT b -> dimC a = dimC b -> length (data a) = length (data b) ->
  add a b s = inr (T3 (dimT a) (dimC a) (map2 (map2 vadd) (data a) (data b)), s).
Proof.
  intros H1 H2 H3. unfold add. rewrite check_ok; [reflexivity|].
  rewrite !andb_true_iff, !Nat.eqb_eq. auto.
Qed.

Lemma add_broadcast_eq (a : tensor3 R) (b : tensor2) (s : rng) :
  dimT a = dimN b -> dimC a = dimV b ->
  add_broadcast a b s
  = inr (T3 (dimT a) (dimC a) (map (fun m => map2 vadd m (rows2 b)) (data a)), s).
Proof.
  intros H1 H2. unfold add_broadcast. rewrite check_ok; [reflexivity|].
  rewrite !andb_true_iff, !Nat.eqb_eq. auto.
Qed.

Lemma cat2_eq (a b : tensor3 R) (s : rng) :
  dimT a = dimT b -> length (data a) = length (data b) ->
  cat2 a b s
  = inr (T3 (dimT a) (dimC a + dimC b)
            (map2 (map2 (@app R)) (data a) (data b)), s).
Proof.
  intros H1 H2. unfold cat2. rewrite check_ok; [reflexivity|].
  rewrite !andb_true_iff, !Nat.eqb_eq. auto.
Qed.

(** The sliced mask of line 31 is false exactly on and below the diagonal. *)
Lemma bget_tril (bs T i j : nat) :
  (T <= bs)%nat -> (i < T)%nat -> (j < T)%nat ->
  bget (eq_zero (slice2 (tril_ones bs) T T)) i j = negb (j <=? i)%nat.
Proof.
  intros HT Hi Hj. unfold bget, eq_zero, slice2, tril_ones. cbn [brows rows2].
  rewrite (nth_map_lt _ _ _ []), (nth_map_lt _ _ _ [])
    by (rewrite ?length_map, length_firstn, length_tab; lia).
  rewrite nth_firstn. replace (i <? T)%nat with true by (symmetry; apply Nat.ltb_lt; lia).
  rewrite nth_tab by lia.
  rewrite (nth_map_lt _ _ _ 0) by (rewrite length_firstn, length_tab; lia).
  rewrite nth_firstn. replace (j <? T)%nat with true by (symmetry; apply Nat.ltb_lt; lia).
  rewrite nth_tab by lia.
  destruct (j <=? i)%nat; simpl.
  - destruct (Req_dec_T 1 0); [lra | reflexivity].
  - destruct (Req_dec_T 0 0); [reflexivity | lra].
Qed.

Lemma masked_fill_tril_eq (bs T : nat) (x : tensor3 R) (s : rng) :
  (T <= bs)%nat -> dimT x = T -> dimC x = T ->
  masked_fill x (eq_zero (slice2 (tril_ones bs) T T)) s
  = inr (T3 T T (map (causal_mask T) (data x)), s).
Proof.
  intros HT H1 H2. unfold masked_fill.
  assert (EN : bdimN (eq_zero (slice2 (tril_ones bs) T T)) = T)
    by (simpl; lia).
  assert (EV : bdimV (eq_zero (slice2 (tril_ones bs) T T)) = T)
    by (simpl; lia).
  rewrite EN, EV, H1, H2, !Nat.eqb_refl. rewrite check_ok by reflexivity.
  unfold ret. do 3 f_equal. apply map_ext. intros m.
  unfold causal_mask. apply tab_ext. intros i Hi. apply tab_ext. intros j Hj.
  rewrite bget_tril by assumption. now destruct (j <=? i)%nat.
Qed.

Lemma softmax_row_eq (row : list xreal) (s : rng) :
  row = [] \/ (exists r, In (Fin r) row) ->
  softmax_row row s = inr (softmax_val row, s).
Proof.
  intros H. destruct row as [|v row]; [reflexivity|].
  unfold softmax_row.
  destruct (forallb is_neg_inf (v :: row)) eqn:E; [|reflexivity].
  exfalso. destruct H as [H|[r Hr]]; [discriminate|].
  rewrite forallb_forall in E. specialize (E _ Hr). discriminate.
Qed.

(** Every row of a causally masked score matrix keeps its diagonal entry. *)
Lemma causal_mask_row_finite (T : nat) (m : mat) (row : list xreal) :
  In row (causal_mask T m) -> exists r, In (Fin r) row.
Proof.
  unfold causal_mask, tab. intros H. apply in_map_iff in H.
  destruct H as (i & <- & Hi). apply in_seq in Hi.
  exists (mat_get m i i). apply in_map_iff. exists i. split.
  - now rewrite Nat.leb_refl.
  - apply in_seq. lia.
Qed.

Lemma softmax_causal_eq (T : nat) (d : list mat) (s : rng) :
  softmax (T3 T T (map (causal_mask T) d)) s
  = inr (T3 T T (map (fun m => map softmax_val (causal_mask T m)) d), s).
Proof.
  unfold softmax. cbn [data dimT dimC].
  rewrite (bind_ok _ (a := map (map softmax_val) (map (causal_mask T) d)) (s1 := s)).
  - unfold ret. now rewrite map_map.
  - apply mapM_pure. intros m Hm. apply mapM_pure. intros row Hrow.
    apply softmax_row_eq. right.
    apply in_map_iff in Hm. destruct Hm as (m0 & <- & _).
    eapply causal_mask_row_finite; eassumption.
Qed.

Lemma softmax2_eq (x : tensor2) (s : rng) :
  softmax2 x s
  = inr (T2 (dimN x) (dimV x) (map (fun r => softmax_val (map Fin r)) (rows2 x)), s).
Proof.
  unfold softmax2.
  rewrite (bind_ok _ (a := map (fun r => softmax_val (map Fin r)) (rows2 x)) (s1 := s));
    [reflexivity|].
  apply mapM_pure. intros r _. apply softmax_row_eq.
  destruct r as [|v r]; [now left | right]. exists v. now left.
Qed.

End TorchLemmas.

(** ** Shapes *)

Section Shapes.

Context {RT : Runtime}.

Lemma map2_map_map {A B C D} (f : B -> C -> D) (g : A -> B) (h : A -> C)
      (l : list A) :
  map2 f (map g l) (map h l) = map (fun a => f (g a) (h a)) l.
Proof. induction l; simpl; congruence. Qed.

Lemma has_shape_map_rows {A B} (Bn T C C' : nat) (f : list A -> list B)
      (x : tensor3 A) :
  (forall r, length (f r) = C') ->
  has_shape Bn T C x -> has_shape Bn T C' (map_rows f C' x).
Proof.
  intros Hf (HT & HC & HB & HF). unfold map_rows. repeat split; simpl; auto.
  - now rewrite length_map.
  - apply Forall_map. eapply Forall_impl; [|exact HF].
    intros m [Hm _]. split; [now rewrite length_map|].
    apply Forall_map. apply Forall_forall. intros; apply Hf.
Qed.

Lemma has_shape_map_rows_same {A B} (Bn T C : nat) (f : A -> B) (x : tensor3 A) :
  has_shape Bn T C x -> has_shape Bn T C (map_rows (map f) C x).
Proof.
  intros (HT & HC & HB & HF). unfold map_rows. repeat split; simpl; auto.
  - now rewrite length_map.
  - apply Forall_map. eapply Forall_impl; [|exact HF].
    intros m [Hm Hr]. split; [now rewrite length_map|].
    apply Forall_map. eapply Forall_impl; [|exact Hr].
    intros r Hl. now rewrite length_map.
Qed.

Lemma Linear_apply_length (l : Linear.t) (r : vec) :
  length (Linear.apply l r) = Linear.out_features l.
Proof. unfold Linear.apply. destruct (Linear.bias l); apply length_tab. Qed.

Lemma LayerNorm_apply_length (l : LayerNorm.t) (r : vec) :
  length (LayerNorm.apply l r) = LayerNorm.normalized_shape l.
Proof. apply length_tab. Qed.

Lemma has_shape_pointwise (Bn T C C' D : nat) (f : vec -> vec -> vec)
      (a b : tensor3 R) :
  (forall r r', length r = C -> length r' = C' -> length (f r r') = D) ->
  has_shape Bn T C a -> has_shape Bn T C' b ->
  has_shape Bn T D (T3 (dimT a) D (map2 (map2 f) (data a) (data b))).
Proof.
  intros Hf (HT & HC & HB & HF) (HT' & HC' & HB' & HF').
  repeat split; simpl; auto.
  - rewrite length_map2. lia.
  - apply Forall_map2. intros i da db Hi Hi'.
    rewrite Forall_forall in HF, HF'.
    destruct (HF (nth i (data a) da) (nth_In _ _ Hi)) as [Hm Hr].
    destruct (HF' (nth i (data b) db) (nth_In _ _ Hi')) as [Hm' Hr'].
    split; [rewrite length_map2; lia|].
    apply Forall_map2. intros j ra rb Hj Hj'.
    rewrite Forall_forall in Hr, Hr'.
    apply Hf; [apply Hr | apply Hr']; now apply nth_In.
Qed.

Lemma vadd_length (C : nat) (r r' : vec) :
  length r = C -> length r' = C -> length (vadd r r') = C.
Proof. intros H H'. unfold vadd. rewrite length_map2. lia. Qed.

Lemma add_ok (Bn T C : nat) (a b : tensor3 R) (s : rng) :
  has_shape Bn T C a -> has_shape Bn T C b ->
  exists y, add a b s = inr (y, s) /\ has_shape Bn T C y /\
            data y = map2 (map2 vadd) (data a) (data b).
Proof.
  intros Ha Hb. eexists. split; [|split].
  - apply add_eq.
    + destruct Ha as (-> & _), Hb as (-> & _). reflexivity.
    + destruct Ha as (_ & -> & _), Hb as (_ & -> & _). reflexivity.
    + destruct Ha as (_ & _ & -> & _), Hb as (_ & _ & -> & _). reflexivity.
  - destruct Ha as (HT & HC & Ha). rewrite HC.
    apply (has_shape_pointwise Bn T C C C); auto using vadd_length.
    repeat split; tauto.
  - reflexivity.
Qed.

Lemma same_lengths_shape {A} (T C : nat) (l l' : list (list (list A))) :
  Forall2 (Forall2 (fun r r' : list A => length r = length r')) l l' ->
  Forall (fun m => length m = T /\ Forall (fun r => length r = C) m) l ->
  Forall (fun m => length m = T /\ Forall (fun r => length r = C) m) l'.
Proof.
  induction 1 as [|m m' l l' Hm _ IH]; intros HF; [constructor|].
  inversion_clear HF as [|? ? [Hlen Hrows] HF'].
  constructor; [|auto].
  split; [rewrite <- (Forall2_length_eq _ _ _ Hm); assumption|].
  clear Hlen. induction Hm as [|r r' k k' Hr _ IH']; [constructor|].
  inversion_clear Hrows as [|? ? Hr0 Hk]. constructor; [congruence | auto].
Qed.

(** Dropout keeps the shape, in training mode too. *)
Lemma Dropout_forward_ok (Bn T C : nat) (d : Dropout.t) (x : tensor3 R) (s : rng) :
  has_shape Bn T C x ->
  exists y s', Dropout.forward d x s = inr (y, s') /\ has_shape Bn T C y.
Proof.
  intros (HT & HC & HB & HF). unfold Dropout.forward.
  destruct (Dropout.disabled d).
  - exists x, s. split; [reflexivity | repeat split; assumption].
  - destruct (mapM_ok
               (fun (m m' : list (list R)) =>
                  Forall2 (fun r r' : list R => length r = length r') m m')
               (mapM (mapM (Dropout.drop_entry d))) (data x)) with (s := s)
      as (y & s' & E & HY).
    { intros m t _.
      destruct (mapM_ok (fun r r' : list R => length r = length r')
                        (mapM (Dropout.drop_entry d)) m) with (s := t)
        as (m' & t' & E & HM); [|eauto].
      intros r u _.
      destruct (mapM_ok (fun _ _ : R => True) (Dropout.drop_entry d) r)
        with (s := u) as (r' & u' & E & HR).
      - intros v w _. unfold Dropout.drop_entry.
        destruct (draw_keep (Dropout.p d) w). eauto.
      - exists r', u'. split; [assumption|].
        eapply Forall2_length_eq; eassumption. }
    exists (T3 (dimT x) (dimC x) y), s'. rewrite (bind_ok _ E).
    split; [reflexivity|]. repeat split; simpl; auto.
    + rewrite <- (Forall2_length_eq _ _ _ HY). assumption.
    + eapply same_lengths_shape; eassumption.
Qed.

Lemma Dropout_forward_eval (d : Dropout.t) (x : tensor3 R) (s : rng) :
  Dropout.disabled d = true -> Dropout.forward d x s = inr (x, s).
Proof. intros H. unfold Dropout.forward. now rewrite H. Qed.

End Shapes.

(** ** Head *)

Section HeadLemmas.

Context {RT : Runtime}.

Lemma attention_weights_shape (h : Head.t) (T C : nat) (m : mat) :
  length (attention_weights h T C m) = T /\
  Forall (fun r => length r = T) (attention_weights h T C m).
Proof.
  unfold attention_weights, causal_mask. split.
  - now rewrite length_map, length_tab.
  - apply Forall_map. unfold tab at 1. apply Forall_map.
    apply Forall_forall. intros i _. unfold softmax_val.
    now rewrite length_map, length_tab.
Qed.

Lemma attention_weights_has_shape (h : Head.t) (B T C C' : nat) (x : tensor3 R) :
  has_shape B T C' x ->
  has_shape B T T (T3 T T (map (attention_weights h T C) (data x))).
Proof.
  intros (_ & _ & HB & _). repeat split; simpl; auto.
  - now rewrite length_map.
  - apply Forall_map. apply Forall_forall. intros m _.
    apply attention_weights_shape.
Qed.

Lemma scores_eq (q k : tensor3 R) (C : nat) (s : rng) :
  dimC q = dimC k -> length (data q) = length (data k) -> (1 <= C)%nat ->
  Head.scores q k C s
  = inr (scale (T3 (dimT q) (dimT k)
                   (map2 (fun ma mb =>
                            map (fun r => tab (dimT k)
                                              (fun c => dot r (column c mb))) ma)
                         (data q) (data (transpose k))))
               (Rpower (INR C) (- / 2)), s).
Proof.
  intros H1 H2 H3. unfold Head.scores.
  rewrite (bind_ok _ (matmul_eq q (transpose k) s H1
                        ltac:(simpl; now rewrite length_map))).
  rewrite (bind_ok _ (pow_neg_half_eq _ _ H3)). reflexivity.
Qed.

(** Lines 26-32 return the attention weights; the rest of [Head.forward]
    runs on them. *)
Lemma Head_forward_unfold (c : Config.t) (hs B T : nat) (h : Head.t)
      (x : tensor3 R) (s : rng) :
  Head_built c hs h ->
  has_shape B T (Config.n_embd c) x ->
  (1 <= Config.n_embd c)%nat ->
  (T <= Config.block_size c)%nat ->
  Head.forward h x s
  = bind (Dropout.forward (Head.dropout h)
            (T3 T T (map (attention_weights h T (Config.n_embd c)) (data x))))
         (fun wei => bind (Linear.forward (Head.value h) x)
                          (fun v => matmul wei v)) s.
Proof.
  intros ([Hki Hko] & [Hqi Hqo] & _ & Htril) (HT & HC & HB & HF) Hn HTb.
  unfold Head.forward.
  rewrite (bind_ok _ (Linear_forward_eq _ _ _ (eq_trans HC (eq_sym Hki)))).
  rewrite (bind_ok _ (Linear_forward_eq _ _ _ (eq_trans HC (eq_sym Hqi)))).
  rewrite HC.
  erewrite bind_ok
    by (apply scores_eq; simpl; [congruence | now rewrite !length_map | exact Hn]).
  unfold scale, map_rows, transpose. cbn [data dimT dimC].
  rewrite Htril, HT.
  erewrite bind_ok
    by (apply masked_fill_tril_eq; [exact HTb | reflexivity | reflexivity]).
  rewrite (bind_ok _ (softmax_causal_eq _ _ _)).
  f_equal. f_equal. f_equal. cbn [data].
  rewrite !map_map, map2_map_map, map_map.
  apply map_ext. intros m. unfold attention_weights.
  rewrite Hko. rewrite ?map_map. reflexivity.
Qed.

Lemma weighted_values_shape (h : Head.t) (T : nat) (w m : mat) :
  length w = T ->
  length (weighted_values h w m) = T /\
  Forall (fun r => length r = Linear.out_features (Head.value h))
         (weighted_values h w m).
Proof.
  intros Hw. unfold weighted_values. split.
  - now rewrite length_map.
  - apply Forall_map. apply Forall_forall. intros r _. apply length_tab.
Qed.

Lemma map2_weighted_values (h : Head.t) (l l0 : list (list (list R))) :
  map2 (fun ma mb : list (list R) =>
          map (fun r => tab (Linear.out_features (Head.value h))
                            (fun c => dot r (column c mb))) ma)
       l (map (map (Linear.apply (Head.value h))) l0)
  = map2 (weighted_values h) l l0.
Proof.
  revert l0. induction l as [|w l IH]; intros [|m l0]; simpl; [reflexivity..|].
  now rewrite IH.
Qed.

Lemma matmul_values_ok (c : Config.t) (hs B T : nat) (h : Head.t)
      (wei x : tensor3 R) (s : rng) :
  Head_built c hs h ->
  has_shape B T (Config.n_embd c) x ->
  has_shape B T T wei ->
  bind (Linear.forward (Head.value h) x) (fun v => matmul wei v) s
  = inr (T3 T hs (map2 (weighted_values h) (data wei) (data x)), s) /\
  has_shape B T hs (T3 T hs (map2 (weighted_values h) (data wei) (data x))).
Proof.
  intros (_ & _ & [Hvi Hvo] & _) (HT & HC & HB & HF) (HT' & HC' & HB' & HF').
  subst hs. split.
  - rewrite (bind_ok _ (Linear_forward_eq _ _ _ (eq_trans HC (eq_sym Hvi)))).
    rewrite matmul_eq.
    + cbn [map_rows data dimT dimC]. rewrite HT'. do 3 f_equal.
      apply map2_weighted_values.
    + simpl. congruence.
    + simpl. rewrite length_map. congruence.
  - repeat split; simpl; auto.
    + rewrite length_map2. lia.
    + apply Forall_map2. intros i da db Hi Hi'.
      rewrite Forall_forall in HF'.
      destruct (HF' (nth i (data wei) da) (nth_In _ _ Hi)) as [Hlen _].
      now apply weighted_values_shape.
Qed.

Lemma Head_forward_ok (c : Config.t) (hs B T : nat) (h : Head.t)
      (x : tensor3 R) (s : rng) :
  Head_built c hs h ->
  has_shape B T (Config.n_embd c) x ->
  (1 <= Config.n_embd c)%nat ->
  (T <= Config.block_size c)%nat ->
  exists y s', Head.forward h x s = inr (y, s') /\ has_shape B T hs y.
Proof.
  intros Hh Hx Hn HT.
  rewrite (Head_forward_unfold c hs B T h x s Hh Hx Hn HT).
  destruct (Dropout_forward_ok B T T (Head.dropout h) _ s
              (attention_weights_has_shape h B T (Config.n_embd c) _ x Hx))
    as (wei & s' & E & Hwei).
  rewrite (bind_ok _ E).
  destruct (matmul_values_ok c hs B T h wei x s' Hh Hx Hwei) as [E' Hy].
  eauto.
Qed.

Lemma Head_forward_eval (c : Config.t) (hs B T : nat) (h : Head.t)
      (x : tensor3 R) (s : rng) :
  Head_built c hs h ->
  Head_eval h ->
  has_shape B T (Config.n_embd c) x ->
  (1 <= Config.n_embd c)%nat ->
  (T <= Config.block_size c)%nat ->
  Head.forward h x s
  = inr (T3 T hs (map (attend h T (Config.n_embd c)) (data x)), s).
Proof.
  intros Hh He Hx Hn HT.
  rewrite (Head_forward_unfold c hs B T h x s Hh Hx Hn HT).
  rewrite (bind_ok _ (Dropout_forward_eval _ _ _ He)).
  destruct (matmul_values_ok c hs B T h
              (T3 T T (map (attention_weights h T (Config.n_embd c)) (data x)))
              x s Hh Hx
              (attention_weights_has_shape h B T (Config.n_embd c) _ x Hx))
    as [E _].
  rewrite E. cbn [data]. do 3 f_equal.
  clear. induction (data x) as [|m l IH]; simpl; [reflexivity|].
  now rewrite IH.
Qed.

End HeadLemmas.

(** ** Causality of one attention head *)

Section HeadCausality.

Context {RT : Runtime}.

Lemma column_tab_tab (n T j : nat) (f : nat -> nat -> R) :
  (j < T)%nat ->
  column j (tab n (fun c => tab T (fun t => f t c))) = tab n (fun c => f j c).
Proof.
  intros Hj. unfold column, tab at 1 3. rewrite map_map.
  apply map_ext. intros c. now rewrite nth_tab.
Qed.

(** Entry (i, j) of the scaled scores of line 30 is q_i . k_j * C^(-1/2). *)
Lemma score_entry (h : Head.t) (T C i j : nat) (m : mat) :
  length m = T -> (i < T)%nat -> (j < T)%nat ->
  let k := map (Linear.apply (Head.key h)) m in
  let q := map (Linear.apply (Head.query h)) m in
  let kT := tab (Linear.out_features (Head.key h))
                (fun c => tab T (fun t => mat_get k t c)) in
  mat_get (map (map (fun v => v * Rpower (INR C) (- / 2)))
               (map (fun r => tab T (fun j => dot r (column j kT))) q)) i j
  = dot (Linear.apply (Head.query h) (nth i m []))
        (Linear.apply (Head.key h) (nth j m []))
    * Rpower (INR C) (- / 2).
Proof.
  intros Hm Hi Hj k q kT. unfold mat_get.
  rewrite (nth_map_lt _ _ _ []) by (rewrite length_map; unfold q; rewrite length_map; lia).
  rewrite (nth_map_lt _ _ _ []) by (unfold q; rewrite length_map; lia).
  rewrite (nth_map_lt _ _ _ 0) by (rewrite length_tab; lia).
  rewrite nth_tab by assumption. f_equal.
  unfold q. rewrite (nth_map_lt _ _ _ []) by lia. f_equal.
  unfold kT. rewrite column_tab_tab by assumption.
  unfold mat_get, k. rewrite (nth_map_lt _ _ _ []) by lia.
  apply (nth_ext _ _ 0 0).
  - now rewrite length_tab, Linear_apply_length.
  - intros c Hc. rewrite length_tab in Hc. now rewrite nth_tab.
Qed.

Lemma causal_row (T i : nat) (m : mat) :
  (i < T)%nat ->
  nth i (causal_mask T m) []
  = tab T (fun j => if (j <=? i)%nat then Fin (mat_get m i j) else NegInf).
Proof. intros Hi. unfold causal_mask. now rewrite nth_tab. Qed.






End HeadCausality.

(** ** MultiHeadAttention, FeedForward, Block: they return, with the shape
    of their input *)

Section LayerShapes.

Context {RT : Runtime}.

Lemma cat2_ok (B T k hs : nat) (a b : tensor3 R) (s : rng) :
  has_shape B T k a -> has_shape B T hs b ->
  exists y, cat2 a b s = inr (y, s) /\ has_shape B T (k + hs) y /\
            data y = map2 (map2 (@app R)) (data a) (data b).
Proof.
  intros Ha Hb. eexists. split; [|split].
  - apply cat2_eq.
    + destruct Ha as (-> & _), Hb as (-> & _). reflexivity.
    + destruct Ha as (_ & _ & -> & _), Hb as (_ & _ & -> & _). reflexivity.
  - destruct Ha as (HT & HC & Ha), Hb as (HT' & HC' & Hb). rewrite HC, HC'.
    apply (has_shape_pointwise B T k hs (k + hs)).
    + intros r r' Hr Hr'. rewrite length_app. lia.
    + repeat split; tauto.
    + repeat split; tauto.
  - reflexivity.
Qed.

Lemma cat_fold_ok (B T hs : nat) (l : list (tensor3 R)) :
  Forall (has_shape B T hs) l ->
  forall (acc : tensor3 R) (k : nat) (s : rng),
    has_shape B T k acc ->
    exists y, foldM cat2 l acc s = inr (y, s) /\
              has_shape B T (k + length l * hs) y.
Proof.
  induction 1 as [|b l Hb _ IH]; intros acc k s Hacc; simpl.
  - exists acc. split; [reflexivity|]. now rewrite Nat.add_0_r.
  - destruct (cat2_ok B T k hs acc b s Hacc Hb) as (y & E & Hy & _).
    rewrite (bind_ok _ E).
    destruct (IH y (k + hs)%nat s Hy) as (z & E' & Hz).
    exists z. split; [assumption|].
    now replace (k + (hs + length l * hs))%nat with (k + hs + length l * hs)%nat by lia.
Qed.

Lemma cat_ok (B T hs : nat) (l : list (tensor3 R)) (s : rng) :
  l <> [] -> Forall (has_shape B T hs) l ->
  exists y, cat l s = inr (y, s) /\ has_shape B T (length l * hs) y.
Proof.
  intros Hl HF. destruct l as [|a l]; [congruence|].
  inversion_clear HF as [|? ? Ha Hl'].
  destruct (cat_fold_ok B T hs l Hl' a hs s Ha) as (y & E & Hy).
  exists y. split; [exact E|]. exact Hy.
Qed.

Lemma Linear_forward_ok (B T C O : nat) (l : Linear.t) (x : tensor3 R) (s : rng) :
  Linear_sized C O l -> has_shape B T C x ->
  exists y, Linear.forward l x s = inr (y, s) /\ has_shape B T O y.
Proof.
  intros [Hi Ho] Hx. eexists. split.
  - apply Linear_forward_eq. destruct Hx as (_ & -> & _). now symmetry.
  - rewrite Ho.
    apply (has_shape_map_rows B T C O); [|exact Hx].
    intros r. now rewrite Linear_apply_length.
Qed.

Lemma LayerNorm_forward_ok (B T C : nat) (l : LayerNorm.t) (x : tensor3 R) (s : rng) :
  LayerNorm.normalized_shape l = C -> has_shape B T C x ->
  exists y, LayerNorm.forward l x s = inr (y, s) /\ has_shape B T C y.
Proof.
  intros Hl Hx. eexists. split.
  - apply LayerNorm_forward_eq. destruct Hx as (_ & -> & _). now symmetry.
  - rewrite Hl.
    apply (has_shape_map_rows B T C C); [|exact Hx].
    intros r. now rewrite LayerNorm_apply_length.
Qed.

Lemma MultiHeadAttention_forward_ok (c : Config.t) (nh hs B T : nat)
      (a : MultiHeadAttention.t) (x : tensor3 R) (s : rng) :
  MultiHeadAttention_built c nh hs a ->
  (1 <= nh)%nat -> (nh * hs = Config.n_embd c)%nat ->
  (1 <= Config.n_embd c)%nat -> (T <= Config.block_size c)%nat ->
  has_shape B T (Config.n_embd c) x ->
  exists y s', MultiHeadAttention.forward a x s = inr (y, s') /\
               has_shape B T (Config.n_embd c) y.
Proof.
  intros (Hlen & Hheads & Hproj) Hnh Hdiv Hn HT Hx.
  unfold MultiHeadAttention.forward.
  assert (Hok : forall h t, In h (MultiHeadAttention.heads a) ->
                 exists y t', Head.forward h x t = inr (y, t') /\ has_shape B T hs y).
  { intros h t Hin. rewrite Forall_forall in Hheads.
    apply (Head_forward_ok c hs B T h x t (Hheads h Hin) Hx Hn HT). }
  destruct (mapM_ok (fun (_ : Head.t) y => has_shape B T hs y)
                    (fun h => Head.forward h x) (MultiHeadAttention.heads a) Hok s)
    as (outs & s1 & E & HF).
  rewrite (bind_ok _ E).
  assert (Houts : Forall (has_shape B T hs) outs).
  { exact (Forall2_right _ _ _ HF). }
  assert (Hl : length outs = nh) by (rewrite <- (Forall2_length_eq _ _ _ HF); exact Hlen).
  destruct (cat_ok B T hs outs s1) as (y & E1 & Hy); [|assumption|].
  { intros ->. simpl in Hl. lia. }
  rewrite (bind_ok _ E1). rewrite Hl, Hdiv in Hy.
  destruct (Linear_forward_ok B T _ _ _ y s1 Hproj Hy) as (z & E2 & Hz).
  rewrite (bind_ok _ E2).
  apply Dropout_forward_ok. exact Hz.
Qed.

Lemma GELU_shape (B T C : nat) (x : tensor3 R) :
  has_shape B T C x -> has_shape B T C (FeedForward.GELU x).
Proof.
  intros Hx. unfold FeedForward.GELU.
  destruct Hx as (HT & HC & Hx). rewrite HC.
  apply has_shape_map_rows_same. repeat split; tauto.
Qed.

Lemma FeedForward_forward_ok (n B T : nat) (f : FeedForward.t)
      (x : tensor3 R) (s : rng) :
  FeedForward_built n f -> has_shape B T n x ->
  exists y s', FeedForward.forward f x s = inr (y, s') /\ has_shape B T n y.
Proof.
  intros (H1 & H2) Hx. unfold FeedForward.forward.
  destruct (Linear_forward_ok B T _ _ _ x s H1 Hx) as (y & E1 & Hy).
  rewrite (bind_ok _ E1).
  destruct (Linear_forward_ok B T _ _ _ _ s H2 (GELU_shape _ _ _ _ Hy))
    as (z & E2 & Hz).
  rewrite (bind_ok _ E2).
  apply Dropout_forward_ok. exact Hz.
Qed.

Lemma Block_forward_ok (c : Config.t) (B T : nat) (b : Block.t)
      (x : tensor3 R) (s : rng) :
  valid_config c ->
  Block_built c (Config.n_embd c) (Config.n_head c) b ->
  (T <= Config.block_size c)%nat ->
  has_shape B T (Config.n_embd c) x ->
  exists y s', Block.forward b x s = inr (y, s') /\
               has_shape B T (Config.n_embd c) y.
Proof.
  intros (_ & Hn & Hh & Hmod & _) (Hsa & Hff & Hl1 & Hl2) HT Hx.
  unfold Block.forward.
  destruct (LayerNorm_forward_ok B T _ _ x s Hl1 Hx) as (n1 & E1 & H1).
  rewrite (bind_ok _ E1).
  assert (Hdiv : (Config.n_head c * (Config.n_embd c / Config.n_head c)
                  = Config.n_embd c)%nat).
  { apply Nat.Div0.div_exact in Hmod. lia. }
  destruct (MultiHeadAttention_forward_ok c _ _ B T _ n1 s Hsa Hh Hdiv Hn HT H1)
    as (a & s1 & E2 & H2).
  rewrite (bind_ok _ E2).
  destruct (add_ok B T _ x a s1 Hx H2) as (x1 & E3 & H3 & _).
  rewrite (bind_ok _ E3).
  destruct (LayerNorm_forward_ok B T _ _ x1 s1 Hl2 H3) as (n2 & E4 & H4).
  rewrite (bind_ok _ E4).
  destruct (FeedForward_forward_ok _ B T _ _ s1 Hff H4) as (f & s2 & E5 & H5).
  rewrite (bind_ok _ E5).
  destruct (add_ok B T _ x1 f s2 H3 H5) as (x2 & E6 & H6 & _).
  eauto.
Qed.

End LayerShapes.

(** ** BigramLanguageModel.forward returns *)

Section ModelShapes.

Context {RT : Runtime}.

Lemma Embedding_lookup_eq (e : Embedding.t) (idx : list nat) (s : rng) :
  Forall (fun t => (t < Embedding.num_embeddings e)%nat) idx ->
  Embedding.lookup e idx s = inr (map (Embedding.row e) idx, s).
Proof.
  intros H. unfold Embedding.lookup. rewrite check_ok.
  - rewrite check_ok; [reflexivity|].
    apply forallb_forall. rewrite Forall_forall in H.
    intros t Ht. apply Nat.ltb_lt. now apply H.
  - destruct idx as [|t l]; [reflexivity|].
    apply Forall_inv in H. apply negb_true_iff, Nat.eqb_neq. lia.
Qed.



Lemma Embedding_forward_eq (e : Embedding.t) (idx : tokens) (s : rng) :
  tokens_in_vocab (Embedding.num_embeddings e) idx ->
  Embedding.forward e idx s
  = inr (T3 (tokT idx) (Embedding.embedding_dim e)
            (map (map (Embedding.row e)) (tokRows idx)), s).
Proof.
  intros H. unfold Embedding.forward.
  rewrite (bind_ok _ (a := map (map (Embedding.row e)) (tokRows idx)) (s1 := s));
    [reflexivity|].
  apply mapM_pure. intros r Hr. apply Embedding_lookup_eq.
  unfold tokens_in_vocab in H. rewrite Forall_forall in H. now apply H.
Qed.

Lemma Embedding_forward_arange_eq (e : Embedding.t) (n : nat) (s : rng) :
  (n <= Embedding.num_embeddings e)%nat ->
  Embedding.forward_arange e n s
  = inr (T2 n (Embedding.embedding_dim e) (map (Embedding.row e) (seq 0 n)), s).
Proof.
  intros H. unfold Embedding.forward_arange.
  erewrite bind_ok
    by (apply Embedding_lookup_eq; apply Forall_forall; intros t Ht;
        apply in_seq in Ht; lia).
  reflexivity.
Qed.



Lemma blocks_forward_ok (c : Config.t) (B T : nat) (bl : list Block.t) :
  valid_config c ->
  Forall (Block_built c (Config.n_embd c) (Config.n_head c)) bl ->
  (T <= Config.block_size c)%nat ->
  forall (x : tensor3 R) (s : rng),
    has_shape B T (Config.n_embd c) x ->
    exists y s', foldM (fun x b => Block.forward b x) bl x s = inr (y, s') /\
                 has_shape B T (Config.n_embd c) y.
Proof.
  intros Hc Hbl HT.
  apply (foldM_ok (has_shape B T (Config.n_embd c))).
  intros b x s Hin Hx. rewrite Forall_forall in Hbl.
  apply (Block_forward_ok c B T b x s Hc (Hbl b Hin) HT Hx).
Qed.

(** Lines 101-103: the embedded input. *)
Lemma embed_shape (c : Config.t) (m : BigramLanguageModel.t) (idx : tokens) :
  built c m -> wf_tokens idx ->
  has_shape (tokB idx) (tokT idx) (Config.n_embd c) (embedded m idx).
Proof.
  intros (_ & Htn & Htd & Hpn & Hpd & _) Hwf. unfold embedded.
  rewrite Htd. repeat split; simpl.
  - now rewrite length_map.
  - apply Forall_map. eapply Forall_impl; [|exact Hwf].
    intros r Hr. simpl in *.
    split; [rewrite length_map2, !length_map, length_seq; lia|].
    apply Forall_map2. intros i da db Hi Hi'.
    rewrite length_map in Hi, Hi'.
    rewrite (nth_map_lt _ _ _ O) by assumption.
    rewrite (nth_map_lt _ _ _ O) by assumption.
    apply vadd_length; unfold Embedding.row; rewrite length_tab; assumption.
Qed.

Lemma logits3_unfold (c : Config.t) (m : BigramLanguageModel.t) (idx : tokens)
      (s : rng) :
  built c m ->
  (tokT idx <= Config.block_size c)%nat ->
  tokens_in_vocab (Config.vocab_size c) idx ->
  BigramLanguageModel.logits3 m idx s
  = bind (foldM (fun x b => Block.forward b x) (BigramLanguageModel.blocks m)
                (embedded m idx))
         (fun x => bind (LayerNorm.forward (BigramLanguageModel.ln_f m) x)
                        (Linear.forward (BigramLanguageModel.lm_head m))) s.
Proof.
  intros (_ & Htn & Htd & Hpn & Hpd & _) HT Hv.
  unfold BigramLanguageModel.logits3.
  erewrite bind_ok by (apply Embedding_forward_eq; now rewrite Htn).
  erewrite bind_ok by (apply Embedding_forward_arange_eq; now rewrite Hpn).
  erewrite bind_ok by (apply add_broadcast_eq; simpl; congruence).
  simpl. unfold embedded. now rewrite map_map.
Qed.

Lemma logits3_ok (c : Config.t) (m : BigramLanguageModel.t) (idx : tokens) (s : rng) :
  valid_config c -> built c m -> wf_tokens idx ->
  (tokT idx <= Config.block_size c)%nat ->
  tokens_in_vocab (Config.vocab_size c) idx ->
  exists y s', BigramLanguageModel.logits3 m idx s = inr (y, s') /\
               has_shape (tokB idx) (tokT idx) (Config.vocab_size c) y.
Proof.
  intros Hc Hm Hwf HT Hv.
  rewrite (logits3_unfold c m idx s Hm HT Hv).
  pose proof (embed_shape c m idx Hm Hwf) as Hx.
  destruct Hm as (_ & _ & _ & _ & _ & _ & Hbl & Hlf & Hlh).
  destruct (blocks_forward_ok c (tokB idx) (tokT idx) _ Hc Hbl HT _ s Hx)
    as (y & s2 & E1 & Hy).
  rewrite (bind_ok _ E1).
  destruct (LayerNorm_forward_ok _ _ _ _ y s2 Hlf Hy) as (z & E2 & Hz).
  rewrite (bind_ok _ E2).
  destruct (Linear_forward_ok _ _ _ _ _ z s2 Hlh Hz) as (w & E3 & Hw).
  eauto.
Qed.

End ModelShapes.

(** ** Causality, layer by layer *)

Section Causality.

Context {RT : Runtime}.


















End Causality.

(** ** Causality of the whole forward pass *)

Section ModelCausality.

Context {RT : Runtime}.












End ModelCausality.

(** ** The sampling loop *)

Section Generate.

Context {RT : Runtime}.

Lemma bind_assoc {A B C} (c : M A) (f : A -> M B) (g : B -> M C) (s : rng) :
  bind (bind c f) g s = bind c (fun x => bind (f x) g) s.
Proof.
  unfold bind. destruct (c s) as [e|[a s1]]; reflexivity.
Qed.

Lemma forward_None_ok (c : Config.t) (m : BigramLanguageModel.t) (idx : tokens)
      (s : rng) :
  valid_config c -> built c m -> wf_tokens idx ->
  (tokT idx <= Config.block_size c)%nat ->
  tokens_in_vocab (Config.vocab_size c) idx ->
  exists logits s',
    BigramLanguageModel.forward m idx None s
    = inr ((BigramLanguageModel.Logits3 logits, None), s') /\
    BigramLanguageModel.logits3 m idx s = inr (logits, s') /\
    has_shape (tokB idx) (tokT idx) (Config.vocab_size c) logits.
Proof.
  intros Hc Hm Hwf HT Hv.
  destruct (logits3_ok c m idx s Hc Hm Hwf HT Hv) as (y & s' & E & Hy).
  exists y, s'. unfold BigramLanguageModel.forward.
  rewrite (bind_ok _ E). auto.
Qed.

Lemma last_columns_wf (n : nat) (idx : tokens) :
  wf_tokens idx -> wf_tokens (last_columns n idx).
Proof.
  intros H. destruct n as [|n]; [exact H|].
  unfold wf_tokens, last_columns. cbn [tokT tokRows].
  apply Forall_map. eapply Forall_impl; [|exact H].
  intros r Hr. cbn beta in *. rewrite length_skipn. lia.
Qed.

Lemma last_columns_in_vocab (V n : nat) (idx : tokens) :
  tokens_in_vocab V idx -> tokens_in_vocab V (last_columns n idx).
Proof.
  intros H. destruct n as [|n]; [exact H|].
  unfold tokens_in_vocab, last_columns. simpl tokRows.
  apply Forall_map. eapply Forall_impl; [|exact H].
  intros r Hr. simpl. rewrite <- (firstn_skipn (length r - S n) r) in Hr.
  apply Forall_app in Hr. tauto.
Qed.

(** The cropped context of line 121 never exceeds the block size. *)
Lemma last_columns_le (n : nat) (idx : tokens) :
  (1 <= n)%nat -> (tokT (last_columns n idx) <= n)%nat.
Proof. intros H. destruct n; [lia|]. cbn [last_columns tokT]. lia. Qed.

Lemma last_columns_tokT (n : nat) (idx : tokens) :
  (1 <= n)%nat -> tokT (last_columns n idx) = Nat.min n (tokT idx).
Proof. intros H. destruct n; [lia|]. reflexivity. Qed.

Lemma last_columns_tokB (n : nat) (idx : tokens) :
  tokB (last_columns n idx) = tokB idx.
Proof. destruct n; [reflexivity|]. unfold tokB. simpl. apply length_map. Qed.

Lemma select_last_ok (B T V : nat) (x : tensor3 R) (s : rng) :
  (1 <= T)%nat -> has_shape B T V x ->
  exists y, select_last x s = inr (y, s) /\ has_shape2 B V y.
Proof.
  intros HT (Ht & HC & HB & HF). unfold select_last. rewrite Ht.
  destruct T as [|t]; [lia|]. eexists. split; [reflexivity|].
  repeat split; simpl; auto.
  - now rewrite length_map.
  - apply Forall_map. eapply Forall_impl; [|exact HF].
    intros m [Hm Hr]. simpl. rewrite Forall_forall in Hr. apply Hr.
    apply nth_In. lia.
Qed.







End Generate.

(** ** Construction *)

Section Construction.

Context {RT : Runtime}.

Lemma draw_vec_ok (n : nat) (s : rng) :
  exists v s', Linear.draw_vec n s = inr (v, s').
Proof.
  revert s. induction n as [|n IH]; intros s; simpl.
  - do 2 eexists. reflexivity.
  - unfold bind at 1. destruct (draw_param s) as [v s1].
    destruct (IH s1) as (vs & s2 & E). rewrite (bind_ok _ E).
    do 2 eexists. reflexivity.
Qed.

Lemma draw_mat_ok (r c : nat) (s : rng) :
  exists v s', Linear.draw_mat r c s = inr (v, s').
Proof.
  revert s. induction r as [|r IH]; intros s; simpl.
  - do 2 eexists. reflexivity.
  - destruct (draw_vec_ok c s) as (v & s1 & E). rewrite (bind_ok _ E).
    destruct (IH s1) as (vs & s2 & E'). rewrite (bind_ok _ E').
    do 2 eexists. reflexivity.
Qed.

Lemma Linear_init_ok (i o : nat) (b : bool) (s : rng) :
  exists l s', Linear.init i o b s = inr (l, s') /\ Linear_sized i o l.
Proof.
  unfold Linear.init. destruct (draw_mat_ok o i s) as (w & s1 & E).
  rewrite (bind_ok _ E). destruct b.
  - destruct (draw_vec_ok o s1) as (v & s2 & E'). rewrite (bind_ok _ E').
    eexists. eexists. split; [reflexivity | split; reflexivity].
  - eexists. eexists. split; [reflexivity | split; reflexivity].
Qed.

Lemma Embedding_init_ok (n d : nat) (s : rng) :
  exists e s', Embedding.init n d s = inr (e, s') /\
               Embedding.num_embeddings e = n /\ Embedding.embedding_dim e = d.
Proof.
  unfold Embedding.init. destruct (draw_mat_ok n d s) as (w & s1 & E).
  rewrite (bind_ok _ E). eexists. eexists. split; [reflexivity | split; reflexivity].
Qed.

Lemma Dropout_init_ok (p : R) (s : rng) :
  0 <= p <= 1 -> Dropout.init p s = inr (Dropout.Make p true, s).
Proof.
  intros [H0 H1]. unfold Dropout.init.
  destruct (Rle_dec 0 p); [|contradiction].
  destruct (Rle_dec p 1); [reflexivity | contradiction].
Qed.

Lemma Head_init_ok (hs : nat) (c : Config.t) (s : rng) :
  0 <= Config.dropout c <= 1 ->
  exists h s', Head.init hs c s = inr (h, s') /\ Head_built c hs h.
Proof.
  intros Hp. unfold Head.init.
  destruct (Linear_init_ok (Config.n_embd c) hs false s) as (k & s1 & E1 & H1).
  rewrite (bind_ok _ E1).
  destruct (Linear_init_ok (Config.n_embd c) hs false s1) as (q & s2 & E2 & H2).
  rewrite (bind_ok _ E2).
  destruct (Linear_init_ok (Config.n_embd c) hs false s2) as (v & s3 & E3 & H3).
  rewrite (bind_ok _ E3).
  rewrite (bind_ok _ (Dropout_init_ok _ s3 Hp)).
  eexists. eexists. split; [reflexivity|].
  destruct H1, H2, H3. repeat split; simpl; auto.
Qed.

Lemma replicate_ok {A} (P : A -> Prop) (c : M A) (n : nat) :
  (forall s, exists a s', c s = inr (a, s') /\ P a) ->
  forall s, exists l s', mapM (fun _ : nat => c) (seq 0 n) s = inr (l, s') /\
                         length l = n /\ Forall P l.
Proof.
  intros H s.
  destruct (mapM_ok (fun (_ : nat) a => P a) (fun _ : nat => c) (seq 0 n)
                    (fun _ t _ => H t) s) as (l & s' & E & HF).
  exists l, s'. split; [exact E|]. split.
  - now rewrite <- (Forall2_length_eq _ _ _ HF), length_seq.
  - exact (Forall2_right _ _ _ HF).
Qed.

Lemma MultiHeadAttention_init_ok (nh hs : nat) (c : Config.t) (s : rng) :
  0 <= Config.dropout c <= 1 ->
  exists a s', MultiHeadAttention.init nh hs c s = inr (a, s') /\
               MultiHeadAttention_built c nh hs a.
Proof.
  intros Hp. unfold MultiHeadAttention.init.
  destruct (replicate_ok (Head_built c hs) (Head.init hs c) nh
              (fun t => Head_init_ok hs c t Hp) s) as (l & s1 & E1 & Hl & HF).
  rewrite (bind_ok _ E1).
  destruct (Linear_init_ok (Config.n_embd c) (Config.n_embd c) true s1)
    as (pr & s2 & E2 & H2).
  rewrite (bind_ok _ E2).
  rewrite (bind_ok _ (Dropout_init_ok _ s2 Hp)).
  eexists. eexists. split; [reflexivity|].
  destruct H2. repeat split; simpl; auto.
Qed.

Lemma FeedForward_init_ok (n : nat) (c : Config.t) (s : rng) :
  0 <= Config.dropout c <= 1 ->
  exists f s', FeedForward.init n c s = inr (f, s') /\ FeedForward_built n f.
Proof.
  intros Hp. unfold FeedForward.init.
  destruct (Linear_init_ok n (4 * n) true s) as (l1 & s1 & E1 & H1).
  rewrite (bind_ok _ E1).
  destruct (Linear_init_ok (4 * n) n true s1) as (l2 & s2 & E2 & H2).
  rewrite (bind_ok _ E2).
  rewrite (bind_ok _ (Dropout_init_ok _ s2 Hp)).
  eexists. eexists. split; [reflexivity|]. split; simpl; assumption.
Qed.

(** Line 71 is a floor division: it succeeds for every divisor but zero. *)
Lemma floordiv_eq (a b : nat) (s : rng) :
  (1 <= b)%nat -> Block.floordiv a b s = inr ((a / b)%nat, s).
Proof. destruct b; [lia | reflexivity]. Qed.

Lemma Block_init_ok (c : Config.t) (n nh : nat) (s : rng) :
  (1 <= nh)%nat -> 0 <= Config.dropout c <= 1 ->
  exists b s', Block.init c n nh s = inr (b, s') /\ Block_built c n nh b.
Proof.
  intros Hnh Hp. unfold Block.init.
  rewrite (bind_ok _ (floordiv_eq n nh s Hnh)).
  destruct (MultiHeadAttention_init_ok nh (n / nh) c s Hp) as (a & s1 & E1 & H1).
  rewrite (bind_ok _ E1).
  destruct (FeedForward_init_ok n c s1 Hp) as (f & s2 & E2 & H2).
  rewrite (bind_ok _ E2).
  unfold LayerNorm.init. unfold bind, ret.
  eexists. eexists. split; [reflexivity|].
  split; [exact H1 | split; [exact H2 | split; reflexivity]].
Qed.

Lemma BigramLanguageModel_init_ok (c : Config.t) (s : rng) :
  (1 <= Config.n_head c)%nat -> 0 <= Config.dropout c <= 1 ->
  exists m s', BigramLanguageModel.init c s = inr (m, s') /\ built c m.
Proof.
  intros Hnh Hp. unfold BigramLanguageModel.init.
  destruct (Embedding_init_ok (Config.vocab_size c) (Config.n_embd c) s)
    as (te & s1 & E1 & H1 & H1').
  rewrite (bind_ok _ E1).
  destruct (Embedding_init_ok (Config.block_size c) (Config.n_embd c) s1)
    as (pe & s2 & E2 & H2 & H2').
  rewrite (bind_ok _ E2).
  destruct (replicate_ok (Block_built c (Config.n_embd c) (Config.n_head c))
              (Block.init c (Config.n_embd c) (Config.n_head c)) (Config.n_layer c)
              (fun t => Block_init_ok c _ _ t Hnh Hp) s2) as (bl & s3 & E3 & Hl & HF).
  rewrite (bind_ok _ E3).
  unfold LayerNorm.init. rewrite (bind_ok _ (a := LayerNorm.Make (Config.n_embd c)
    (repeat 1 (Config.n_embd c)) (repeat 0 (Config.n_embd c))) (s1 := s3))
    by reflexivity.
  destruct (Linear_init_ok (Config.n_embd c) (Config.vocab_size c) true s3)
    as (lh & s4 & E4 & H4).
  rewrite (bind_ok _ E4).
  eexists. eexists. split; [reflexivity|].
  destruct H4. repeat split; simpl; auto.
Qed.

End Construction.

(** ** Failures *)

Section Failures.

Context {RT : Runtime}.







(** With [n_embd] not a multiple of [n_head] the concatenated heads are
    narrower than the projection expects. *)
Lemma MultiHeadAttention_forward_mismatch (c : Config.t) (nh hs B T : nat)
      (a : MultiHeadAttention.t) (x : tensor3 R) (s : rng) :
  MultiHeadAttention_built c nh hs a ->
  (1 <= nh)%nat -> (nh * hs <> Config.n_embd c)%nat ->
  (1 <= Config.n_embd c)%nat -> (T <= Config.block_size c)%nat ->
  has_shape B T (Config.n_embd c) x ->
  MultiHeadAttention.forward a x s = inl ShapeMismatch.
Proof.
  intros (Hlen & Hheads & [Hpi Hpo]) Hnh Hdiv Hn HT Hx.
  unfold MultiHeadAttention.forward.
  assert (Hok : forall h t, In h (MultiHeadAttention.heads a) ->
                 exists y t', Head.forward h x t = inr (y, t') /\ has_shape B T hs y).
  { intros h t Hin. rewrite Forall_forall in Hheads.
    apply (Head_forward_ok c hs B T h x t (Hheads h Hin) Hx Hn HT). }
  destruct (mapM_ok (fun (_ : Head.t) y => has_shape B T hs y)
                    (fun h => Head.forward h x) (MultiHeadAttention.heads a) Hok s)
    as (outs & s1 & E & HF).
  rewrite (bind_ok _ E).
  assert (Houts : Forall (has_shape B T hs) outs) by exact (Forall2_right _ _ _ HF).
  assert (Hl : length outs = nh) by (rewrite <- (Forall2_length_eq _ _ _ HF); exact Hlen).
  destruct (cat_ok B T hs outs s1) as (y & E1 & Hy); [|assumption|].
  { intros ->. simpl in Hl. lia. }
  rewrite (bind_ok _ E1). rewrite Hl in Hy.
  apply bind_err. unfold Linear.forward. apply check_fail.
  apply Nat.eqb_neq. destruct Hy as (_ & -> & _). congruence.
Qed.

Lemma Block_forward_mismatch (c : Config.t) (B T : nat) (b : Block.t)
      (x : tensor3 R) (s : rng) :
  Block_built c (Config.n_embd c) (Config.n_head c) b ->
  (1 <= Config.n_head c)%nat ->
  (Config.n_embd c mod Config.n_head c <> 0)%nat ->
  (T <= Config.block_size c)%nat ->
  has_shape B T (Config.n_embd c) x ->
  Block.forward b x s = inl ShapeMismatch.
Proof.
  intros (Hsa & _ & Hl1 & _) Hnh Hmod HT Hx. unfold Block.forward.
  destruct (LayerNorm_forward_ok B T _ _ x s Hl1 Hx) as (n1 & E1 & H1).
  rewrite (bind_ok _ E1). apply bind_err.
  apply (MultiHeadAttention_forward_mismatch c _ _ B T _ n1 s Hsa Hnh); auto.
  - pose proof (Nat.div_mod_eq (Config.n_embd c) (Config.n_head c)). lia.
  - destruct (Config.n_embd c); [|lia]. rewrite Nat.Div0.mod_0_l in Hmod. congruence.
Qed.

Lemma forward_mismatch (c : Config.t) (m : BigramLanguageModel.t) (idx : tokens)
      (targets : option tokens) (s : rng) :
  built c m ->
  (1 <= Config.n_head c)%nat ->
  (Config.n_embd c mod Config.n_head c <> 0)%nat ->
  (1 <= Config.n_layer c)%nat ->
  wf_tokens idx -> (tokT idx <= Config.block_size c)%nat ->
  tokens_in_vocab (Config.vocab_size c) idx ->
  BigramLanguageModel.forward m idx targets s = inl ShapeMismatch.
Proof.
  intros Hm Hnh Hmod Hl Hwf HT Hv. unfold BigramLanguageModel.forward.
  apply bind_err. rewrite (logits3_unfold c m idx s Hm HT Hv).
  pose proof (embed_shape c m idx Hm Hwf) as Hx.
  destruct Hm as (_ & _ & _ & _ & _ & Hlen & Hbl & _).
  apply bind_err.
  destruct (BigramLanguageModel.blocks m) as [|b bl]; [simpl in Hlen; lia|].
  simpl. apply bind_err. inversion_clear Hbl as [|? ? Hb _].
  apply (Block_forward_mismatch c (tokB idx) (tokT idx)); auto.
Qed.

End Failures.

(** ** The loss *)

Section Loss.

Context {RT : Runtime}.

Lemma length_concat_rows {A} (T : nat) (l : list (list A)) :
  Forall (fun r => length r = T) l -> length (concat l) = (length l * T)%nat.
Proof.
  induction 1 as [|r l Hr _ IH]; simpl; [reflexivity|].
  rewrite length_app. lia.
Qed.

Lemma view2_shape (B T V : nat) (x : tensor3 R) :
  has_shape B T V x -> has_shape2 (B * T) V (view2 x).
Proof.
  intros (HT & HC & HB & HF). unfold view2. repeat split; simpl.
  - now rewrite HB, HT.
  - assumption.
  - rewrite (length_concat_rows T), HB; [reflexivity|].
    eapply Forall_impl; [|exact HF]. now intros m [].
  - apply Forall_concat. eapply Forall_impl; [|exact HF]. now intros m [].
Qed.

Lemma cross_entropy_ok (N V : nat) (logits : tensor2) (targets : list nat) (s : rng) :
  has_shape2 N V logits -> length targets = N ->
  Forall (fun t => (t < V)%nat) targets ->
  exists loss, cross_entropy logits targets s = inr (loss, s).
Proof.
  intros (HN & HV & _) Hl Ht. unfold cross_entropy.
  rewrite check_ok by (apply Nat.eqb_eq; congruence).
  rewrite check_ok.
  - destruct (dimN logits); eexists; reflexivity.
  - apply forallb_forall. rewrite Forall_forall in Ht. intros t Hin.
    apply Nat.ltb_lt. rewrite HV. now apply Ht.
Qed.

Lemma view1_eq (n : nat) (t : tokens) (s : rng) :
  (tokB t * tokT t)%nat = n -> view1 n t s = inr (concat (tokRows t), s).
Proof.
  intros H. unfold view1. rewrite check_ok; [reflexivity|]. now apply Nat.eqb_eq.
Qed.

Lemma forward_targets_ok (c : Config.t) (m : BigramLanguageModel.t)
      (idx targets : tokens) (s : rng) :
  valid_config c -> built c m -> wf_tokens idx ->
  (tokT idx <= Config.block_size c)%nat ->
  tokens_in_vocab (Config.vocab_size c) idx ->
  wf_tokens targets -> tokT targets = tokT idx -> tokB targets = tokB idx ->
  tokens_in_vocab (Config.vocab_size c) targets ->
  exists logits loss s',
    BigramLanguageModel.logits3 m idx s = inr (logits, s') /\
    has_shape (tokB idx) (tokT idx) (Config.vocab_size c) logits /\
    cross_entropy (view2 logits) (concat (tokRows targets)) s' = inr (loss, s') /\
    BigramLanguageModel.forward m idx (Some targets) s
    = inr ((BigramLanguageModel.Logits2 (view2 logits), Some loss), s').
Proof.
  intros Hc Hm Hwf HT Hv Hwft HTt HBt Hvt.
  destruct (logits3_ok c m idx s Hc Hm Hwf HT Hv) as (y & s' & E & Hy).
  pose proof (view2_shape _ _ _ y Hy) as Hy2.
  destruct (cross_entropy_ok _ _ (view2 y) (concat (tokRows targets)) s' Hy2)
    as (loss & El).
  { rewrite (length_concat_rows (tokT targets)) by exact Hwft.
    fold (tokB targets). now rewrite HBt, HTt. }
  { apply Forall_concat. exact Hvt. }
  exists y, loss, s'. split; [exact E|]. split; [exact Hy|]. split; [exact El|].
  unfold BigramLanguageModel.forward. rewrite (bind_ok _ E).
  erewrite bind_ok
    by (apply view1_eq; destruct Hy as (-> & _ & -> & _); now rewrite HBt, HTt).
  rewrite (bind_ok _ El). reflexivity.
Qed.

End Loss.

(** ** Remaining helpers *)

Section Helpers.

Context {RT : Runtime}.

Lemma bind_ext {A B} (c : M A) (f g : A -> M B) (s : rng) :
  (forall a t, f a t = g a t) -> bind c f s = bind c g s.
Proof.
  intros H. unfold bind. destruct (c s) as [e|[a s1]]; [reflexivity | apply H].
Qed.


Lemma scale_factor (C : nat) :
  (1 <= C)%nat -> Rpower (INR C) (- / 2) = / sqrt (INR C).
Proof.
  intros H. rewrite Rpower_Ropp, Rpower_sqrt; [reflexivity|].
  apply lt_0_INR. lia.
Qed.

(** Lines 26-30 of [Head.forward] and what follows them: the projections
    and the scaled scores consume no randomness, and the rest of the
    function (mask, softmax, dropout, values) runs on these scores. *)
Lemma Head_forward_from_scores (c : Config.t) (hs B T : nat) (h : Head.t)
      (x : tensor3 R) (s : rng) :
  Head_built c hs h -> has_shape B T (Config.n_embd c) x ->
  (1 <= Config.n_embd c)%nat ->
  exists wei,
    has_shape B T T wei /\
    (forall b i j, (b < B)%nat -> (i < T)%nat -> (j < T)%nat ->
       mat_get (nth b (data wei) []) i j
       = dot (Linear.apply (Head.query h) (nth i (nth b (data x) []) []))
             (Linear.apply (Head.key h) (nth j (nth b (data x) []) []))
         * / sqrt (INR (Config.n_embd c))) /\
    Head.forward h x s
    = bind (masked_fill wei (eq_zero (slice2 (Head.tril h) T T)))
        (fun wei => bind (softmax wei)
        (fun wei => bind (Dropout.forward (Head.dropout h) wei)
        (fun wei => bind (Linear.forward (Head.value h) x)
        (fun v => matmul wei v)))) s.
Proof.
  intros ([Hki Hko] & [Hqi Hqo] & _) Hx Hn.
  pose proof Hx as (HT & HC & HB & HF).
  eexists. split; [|split].
  3:{ unfold Head.forward.
      rewrite (bind_ok _ (Linear_forward_eq _ _ _ (eq_trans HC (eq_sym Hki)))).
      rewrite (bind_ok _ (Linear_forward_eq _ _ _ (eq_trans HC (eq_sym Hqi)))).
      rewrite HC.
      erewrite bind_ok
        by (apply scores_eq; simpl; [congruence | now rewrite !length_map | exact Hn]).
      rewrite HT. reflexivity. }
  - unfold scale, map_rows, transpose. cbn [data dimT dimC]. rewrite HT.
    rewrite !map_map, map2_map_map, map_map.
    split; [reflexivity|]. split; [reflexivity|]. cbn [data].
    split; [now rewrite length_map|].
    apply Forall_map. eapply Forall_impl; [|exact HF].
    intros m [Hm _]. cbv beta. rewrite !length_map. split; [exact Hm|].
    do 3 apply Forall_map. apply Forall_forall. intros r _.
    now rewrite length_map, length_tab.
  - intros b i j Hb Hi Hj.
    unfold scale, map_rows, transpose. cbn [data dimT dimC]. rewrite HT.
    rewrite !map_map, map2_map_map, map_map.
    rewrite (nth_map_lt _ _ _ []) by lia.
    assert (Hm : length (nth b (data x) []) = T).
    { rewrite Forall_forall in HF. apply HF. apply nth_In. lia. }
    rewrite (score_entry h T (Config.n_embd c) i j _ Hm Hi Hj).
    now rewrite scale_factor.
Qed.

(** Lines 26-32: the softmax of line 32 runs on scores whose diagonal
    entries the mask of line 31 has left finite. *)
Lemma Head_forward_masked (c : Config.t) (hs B T : nat) (h : Head.t)
      (x : tensor3 R) (s : rng) :
  Head_built c hs h -> has_shape B T (Config.n_embd c) x ->
  (1 <= Config.n_embd c)%nat -> (T <= Config.block_size c)%nat ->
  exists masked,
    has_shape B T T masked /\
    (forall b i, (b < B)%nat -> (i < T)%nat ->
       exists r, nth i (nth i (nth b (data masked) []) []) NegInf = Fin r) /\
    (exists wei, softmax masked s = inr (wei, s)) /\
    Head.forward h x s
    = bind (softmax masked)
        (fun wei => bind (Dropout.forward (Head.dropout h) wei)
        (fun wei => bind (Linear.forward (Head.value h) x)
        (fun v => matmul wei v))) s.
Proof.
  intros Hh Hx Hn HT.
  destruct (Head_forward_from_scores c hs B T h x s Hh Hx Hn)
    as (wei & (HwT & HwC & HwB & HwF) & _ & Hfw).
  destruct Hh as (_ & _ & _ & Htril).
  exists (T3 T T (map (causal_mask T) (data wei))).
  split; [|split; [|split]].
  - split; [reflexivity|]. split; [reflexivity|]. cbn [data].
    split; [now rewrite length_map|].
    apply Forall_map. apply Forall_forall. intros m _.
    unfold causal_mask. rewrite length_tab. split; [reflexivity|].
    apply Forall_forall. intros row Hrow. unfold tab in Hrow.
    apply in_map_iff in Hrow. destruct Hrow as (i & <- & _). apply length_tab.
  - intros b i Hb Hi. cbn [data].
    rewrite (nth_map_lt _ _ _ []) by lia.
    rewrite causal_row by assumption. rewrite nth_tab by assumption.
    rewrite Nat.leb_refl. eexists. reflexivity.
  - eexists. apply softmax_causal_eq.
  - rewrite Hfw, Htril.
    now rewrite (bind_ok _ (masked_fill_tril_eq _ T wei s HT HwT HwC)).
Qed.

(** Cropping to the last min(T, n) columns and then to the last n is
    cropping to the last n. *)
Lemma last_columns_idem (n : nat) (idx : tokens) :
  wf_tokens idx ->
  last_columns n (last_columns (Nat.min (tokT idx) n) idx) = last_columns n idx.
Proof.
  intros Hwf. destruct n as [|n]; [now rewrite Nat.min_0_r|].
  destruct (tokT idx) as [|t] eqn:Et; [reflexivity|].
  cbn [Nat.min]. cbn [last_columns tokT tokRows]. rewrite Et. f_equal.
  - lia.
  - rewrite map_map. apply map_ext_in. intros r Hr.
    unfold wf_tokens in Hwf. rewrite Forall_forall in Hwf.
    specialize (Hwf r Hr). rewrite Et in Hwf.
    rewrite length_skipn, skipn_skipn. f_equal. lia.
Qed.

End Helpers.

(** * The concrete model is well formed *)

Lemma cfg0_valid : valid_config cfg0.
Proof.
  unfold valid_config, cfg0. simpl.
  repeat split; try lia; try lra.
Defined.

Lemma model0_built : built cfg0 model0.
Proof.
  unfold built, model0, cfg0. simpl.
  repeat split; try reflexivity.
  repeat constructor.
Defined.

Lemma model0_eval : dropout_disabled model0.
Proof.
  unfold dropout_disabled, model0. simpl.
  repeat constructor.
Defined.

Lemma idx0_wf : wf_tokens idx0.
Proof. repeat constructor. Defined.

Lemma idx0_in_vocab : tokens_in_vocab (Config.vocab_size cfg0) idx0.
Proof. unfold tokens_in_vocab, idx0, cfg0. simpl. repeat constructor. Defined.

(** ** The definitions on small inputs *)

Example tril_ones_3 :
  rows2 (tril_ones 3) = [[1; 0; 0]; [1; 1; 0]; [1; 1; 1]].
Proof. reflexivity. Qed.

Example last_columns_crops : last_columns 3 idx_long = Tok 3 [[1; 2; 3]]%nat.
Proof. reflexivity. Qed.

Example last_columns_short : last_columns 5 idx0 = idx0.
Proof. reflexivity. Qed.

Example last_columns_zero : last_columns 0 idx_long = idx_long.
Proof. reflexivity. Qed.

Example set_token_last : set_token idx0 0 2 4 = Tok 3 [[0; 1; 4]]%nat.
Proof. reflexivity. Qed.

Example floordiv_5_2 :
  @Block.floordiv example_runtime 5 2 tt = inr (2%nat, tt).
Proof. reflexivity. Qed.

Example floordiv_by_zero :
  @Block.floordiv example_runtime 5 0 tt = inl ZeroDivisionError.
Proof. reflexivity. Qed.

Example position_lookup_out_of_range :
  @Embedding.forward_arange example_runtime
     (BigramLanguageModel.position_embedding_table model0) 4 tt
  = inl IndexError.
Proof. reflexivity. Qed.

Example lookup_in_empty_table :
  @Embedding.forward_arange example_runtime (Embedding.Make 0 4 []) 1 tt
  = inl EmptyTable /\
  @Embedding.forward_arange example_runtime (Embedding.Make 0 4 []) 0 tt
  = inr (T2 0 4 [], tt) /\
  @Embedding.forward example_runtime (Embedding.Make 0 4 []) (Tok 0 [[]; []]) tt
  = inr (T3 0 4 [[]; []], tt).
Proof. repeat split. Qed.

Example select_last_empty :
  @select_last example_runtime (T3 0 5 [[]]) tt = inl IndexError.
Proof. reflexivity. Qed.

Example view2_flattens :
  view2 (T3 2 1 [[[1]; [0]]; [[0]; [1]]]) = T2 4 1 [[1]; [0]; [0]; [1]].
Proof. reflexivity. Qed.

(** * The claims *)

Section Claims.

Context {RT : Runtime}.



(** C3, as amended.  Line 71 is a floor division, so a configuration in
    which n_head does not divide n_embd is accepted: for every configuration
    with n_head >= 1 and dropout in [0, 1], construction returns a model
    whose heads have size n_embd // n_head.  When n_embd is not a multiple
    of n_head and there is at least one block, it is the forward pass that
    fails, with a shape mismatch at the projection of the concatenated
    heads. *)
Theorem C3_construction_accepts_indivisible (c : Config.t) (s : rng) :
  (1 <= Config.n_head c)%nat -> 0 <= Config.dropout c <= 1 ->
  exists m s',
    BigramLanguageModel.init c s = inr (m, s') /\
    built c m /\
    Block.floordiv (Config.n_embd c) (Config.n_head c) s
    = inr ((Config.n_embd c / Config.n_head c)%nat, s) /\
    ((Config.n_embd c mod Config.n_head c <> 0)%nat ->
     (1 <= Config.n_layer c)%nat ->
     forall idx targets t,
       wf_tokens idx -> (tokT idx <= Config.block_size c)%nat ->
       tokens_in_vocab (Config.vocab_size c) idx ->
       BigramLanguageModel.forward m idx targets t = inl ShapeMismatch).
Proof.
  intros Hnh Hp.
  destruct (BigramLanguageModel_init_ok c s Hnh Hp) as (m & s' & E & Hm).
  exists m, s'. split; [exact E|]. split; [exact Hm|].
  split; [now apply floordiv_eq|].
  intros Hmod Hl idx targets t Hwf HT Hv.
  now apply (forward_mismatch c).
Qed.


(** C5.  Attention scaling factor.  A head whose input has embedding
    width n_embd computes queries and keys of width head_size, and its
    [forward] masks, normalises and applies to the values the scores whose
    entry (i, j) is the dot product of query row i and key row j times
    1 / sqrt(n_embd): the width of the input of the head, whatever its own
    width head_size. *)
Theorem C5_attention_scale (c : Config.t) (hs B T : nat) (h : Head.t)
        (x : tensor3 R) (s : rng) :
  Head_built c hs h -> has_shape B T (Config.n_embd c) x ->
  (1 <= Config.n_embd c)%nat ->
  exists q k wei,
    Linear.forward (Head.query h) x s = inr (q, s) /\
    Linear.forward (Head.key h) x s = inr (k, s) /\
    has_shape B T hs q /\ has_shape B T hs k /\
    has_shape B T T wei /\
    (forall b i j, (b < B)%nat -> (i < T)%nat -> (j < T)%nat ->
       mat_get (nth b (data wei) []) i j
       = dot (nth i (nth b (data q) []) []) (nth j (nth b (data k) []) [])
         * / sqrt (INR (Config.n_embd c))) /\
    Head.forward h x s
    = bind (masked_fill wei (eq_zero (slice2 (Head.tril h) T T)))
        (fun wei => bind (softmax wei)
        (fun wei => bind (Dropout.forward (Head.dropout h) wei)
        (fun wei => bind (Linear.forward (Head.value h) x)
        (fun v => matmul wei v)))) s.
Proof.
  intros Hh Hx Hn.
  destruct (Head_forward_from_scores c hs B T h x s Hh Hx Hn)
    as (wei & Hw & Hent & Hfw).
  destruct Hh as ([Hki Hko] & [Hqi Hqo] & _).
  pose proof Hx as (HT & HC & HB & HF).
  exists (map_rows (Linear.apply (Head.query h)) (Linear.out_features (Head.query h)) x),
         (map_rows (Linear.apply (Head.key h)) (Linear.out_features (Head.key h)) x),
         wei.
  split; [apply Linear_forward_eq; congruence|].
  split; [apply Linear_forward_eq; congruence|].
  split.
  { rewrite Hqo. apply (has_shape_map_rows B T (Config.n_embd c) hs); [|exact Hx].
    intros r. now rewrite Linear_apply_length. }
  split.
  { rewrite Hko. apply (has_shape_map_rows B T (Config.n_embd c) hs); [|exact Hx].
    intros r. now rewrite Linear_apply_length. }
  split; [exact Hw|]. split; [|exact Hfw].
  intros b i j Hb Hi Hj. rewrite (Hent b i j Hb Hi Hj).
  assert (Hm : length (nth b (data x) []) = T).
  { rewrite Forall_forall in HF. apply HF. apply nth_In. lia. }
  unfold map_rows. cbn [data].
  rewrite !(nth_map_lt _ (data x) b [] []) by lia.
  rewrite !(nth_map_lt _ (nth b (data x) []) _ [] []) by lia.
  reflexivity.
Qed.

(** C6.  Block composition.  On an input x of the model's width a Block
    returns x'' where x' = x + sa(ln1(x)) and x'' = x' + ffwd(ln2(x')); the
    first normalisation uses the module ln1 and the second the module ln2,
    two separate fields with their own weight and bias. *)
Theorem C6_block_composition (c : Config.t) (b : Block.t) (B T : nat)
        (x : tensor3 R) (s : rng) :
  valid_config c ->
  Block_built c (Config.n_embd c) (Config.n_head c) b ->
  (T <= Config.block_size c)%nat ->
  has_shape B T (Config.n_embd c) x ->
  exists n1 a x1 n2 f y s1 s2,
    LayerNorm.forward (Block.ln1 b) x s = inr (n1, s) /\
    MultiHeadAttention.forward (Block.sa b) n1 s = inr (a, s1) /\
    add x a s1 = inr (x1, s1) /\
    data x1 = map2 (map2 vadd) (data x) (data a) /\
    LayerNorm.forward (Block.ln2 b) x1 s1 = inr (n2, s1) /\
    FeedForward.forward (Block.ffwd b) n2 s1 = inr (f, s2) /\
    add x1 f s2 = inr (y, s2) /\
    data y = map2 (map2 vadd) (data x1) (data f) /\
    Block.forward b x s = inr (y, s2) /\
    has_shape B T (Config.n_embd c) y.
Proof.
  intros (_ & Hn & Hh & Hmod & _) (Hsa & Hff & Hl1 & Hl2) HT Hx.
  destruct (LayerNorm_forward_ok B T _ _ x s Hl1 Hx) as (n1 & E1 & H1).
  assert (Hdiv : (Config.n_head c * (Config.n_embd c / Config.n_head c)
                  = Config.n_embd c)%nat).
  { apply Nat.Div0.div_exact in Hmod. lia. }
  destruct (MultiHeadAttention_forward_ok c _ _ B T _ n1 s Hsa Hh Hdiv Hn HT H1)
    as (a & s1 & E2 & H2).
  destruct (add_ok B T _ x a s1 Hx H2) as (x1 & E3 & H3 & D3).
  destruct (LayerNorm_forward_ok B T _ _ x1 s1 Hl2 H3) as (n2 & E4 & H4).
  destruct (FeedForward_forward_ok _ B T _ _ s1 Hff H4) as (f & s2 & E5 & H5).
  destruct (add_ok B T _ x1 f s2 H3 H5) as (y & E6 & H6 & D6).
  exists n1, a, x1, n2, f, y, s1, s2.
  repeat (split; [assumption|]). split; [|assumption].
  unfold Block.forward.
  now rewrite (bind_ok _ E1), (bind_ok _ E2), (bind_ok _ E3), (bind_ok _ E4),
    (bind_ok _ E5).
Qed.

(** C7, as amended.  For a token array of shape (batch, time) with
    time <= block_size, [forward] returns logits of shape (batch, time,
    vocab_size), and masking never produces [nan]: in every head of every
    block, on every input of the shape [forward] gives it, the softmax of
    line 32 runs on scores whose diagonal entries the mask of line 31 has
    left finite, so no row is entirely [-inf], and it returns.  (That the
    logits are finite is not part of the statement: float32 overflows.) *)
Theorem C7_forward_shape_no_masked_row (c : Config.t) (m : BigramLanguageModel.t)
        (idx : tokens) (s : rng) :
  valid_config c -> built c m -> wf_tokens idx ->
  (tokT idx <= Config.block_size c)%nat ->
  tokens_in_vocab (Config.vocab_size c) idx ->
  (exists logits s',
     BigramLanguageModel.forward m idx None s
     = inr ((BigramLanguageModel.Logits3 logits, None), s') /\
     has_shape (tokB idx) (tokT idx) (Config.vocab_size c) logits) /\
  (forall (b : Block.t) (h : Head.t) (x : tensor3 R) (t : rng),
     In b (BigramLanguageModel.blocks m) ->
     In h (MultiHeadAttention.heads (Block.sa b)) ->
     has_shape (tokB idx) (tokT idx) (Config.n_embd c) x ->
     exists masked,
       has_shape (tokB idx) (tokT idx) (tokT idx) masked /\
       (forall bi i, (bi < tokB idx)%nat -> (i < tokT idx)%nat ->
          exists r, nth i (nth i (nth bi (data masked) []) []) NegInf = Fin r) /\
       (exists wei, softmax masked t = inr (wei, t)) /\
       Head.forward h x t
       = bind (softmax masked)
           (fun wei => bind (Dropout.forward (Head.dropout h) wei)
           (fun wei => bind (Linear.forward (Head.value h) x)
           (fun v => matmul wei v))) t).
Proof.
  intros Hc Hm Hwf HT Hv. split.
  - destruct (forward_None_ok c m idx s Hc Hm Hwf HT Hv) as (y & s' & E & _ & Hy).
    eauto.
  - intros b h x t Hb Hh Hx.
    destruct Hm as (_ & _ & _ & _ & _ & _ & Hbl & _).
    rewrite Forall_forall in Hbl.
    destruct (Hbl b Hb) as ((_ & Hheads & _) & _).
    rewrite Forall_forall in Hheads.
    apply (Head_forward_masked c _ _ _ h x t (Hheads h Hh) Hx); [|exact HT].
    destruct Hc; tauto.
Qed.

(** C8.  Generation sliding window.  The distribution the next token is
    drawn from is computed from the last min(length, block_size) columns of
    the running sequence alone: replacing the sequence by these columns does
    not change it, and two running sequences with the same last block_size
    columns give the same distribution. *)
Theorem C8_sliding_window (m : BigramLanguageModel.t) (idx idx' : tokens) (s : rng) :
  wf_tokens idx ->
  last_columns (Config.block_size (BigramLanguageModel.config m)) idx
  = last_columns (Config.block_size (BigramLanguageModel.config m)) idx' ->
  BigramLanguageModel.next_probs m idx s
  = BigramLanguageModel.next_probs m
      (last_columns (Nat.min (tokT idx)
                       (Config.block_size (BigramLanguageModel.config m))) idx) s /\
  BigramLanguageModel.next_probs m idx s = BigramLanguageModel.next_probs m idx' s /\
  BigramLanguageModel.generate_step m idx s
  = bind (BigramLanguageModel.next_probs m idx)
         (fun probs => bind (multinomial probs) (cat_tokens idx)) s.
Proof.
  intros Hwf Heq. split; [|split].
  - unfold BigramLanguageModel.next_probs.
    now rewrite last_columns_idem.
  - unfold BigramLanguageModel.next_probs. now rewrite Heq.
  - reflexivity.
Qed.

(** C9.  Missing targets are not an error.  Without targets [forward]
    returns the logits and no loss.  With targets of the shape of the
    tokens it returns, as loss, the cross-entropy of the logits flattened
    over batch and time and the flattened targets. *)
Theorem C9_missing_targets (c : Config.t) (m : BigramLanguageModel.t)
        (idx : tokens) (s : rng) :
  valid_config c -> built c m -> wf_tokens idx ->
  (tokT idx <= Config.block_size c)%nat ->
  tokens_in_vocab (Config.vocab_size c) idx ->
  exists logits s',
    BigramLanguageModel.logits3 m idx s = inr (logits, s') /\
    BigramLanguageModel.forward m idx None s
    = inr ((BigramLanguageModel.Logits3 logits, None), s') /\
    forall targets,
      wf_tokens targets -> tokT targets = tokT idx -> tokB targets = tokB idx ->
      tokens_in_vocab (Config.vocab_size c) targets ->
      exists loss,
        cross_entropy (view2 logits) (concat (tokRows targets)) s' = inr (loss, s') /\
        BigramLanguageModel.forward m idx (Some targets) s
        = inr ((BigramLanguageModel.Logits2 (view2 logits), Some loss), s').
Proof.
  intros Hc Hm Hwf HT Hv.
  destruct (forward_None_ok c m idx s Hc Hm Hwf HT Hv) as (y & s' & E & El & Hy).
  exists y, s'. split; [exact El|]. split; [exact E|].
  intros targets Hwft HTt HBt Hvt.
  destruct (forward_targets_ok c m idx targets s Hc Hm Hwf HT Hv Hwft HTt HBt Hvt)
    as (y' & loss & s'' & El' & _ & Ec & Ef).
  rewrite El in El'. inversion El'; subst y' s''.
  exists loss. split; assumption.
Qed.

(** C10.  The shape of the returned logits depends on the targets: without
    targets they have shape (batch, time, vocab_size); with targets the
    value returned is the flattened array of shape (batch * time,
    vocab_size), the very array the loss is computed from. *)
Theorem C10_logits_shape_depends_on_targets (c : Config.t)
        (m : BigramLanguageModel.t) (idx targets : tokens) (s : rng) :
  valid_config c -> built c m -> wf_tokens idx ->
  (tokT idx <= Config.block_size c)%nat ->
  tokens_in_vocab (Config.vocab_size c) idx ->
  wf_tokens targets -> tokT targets = tokT idx -> tokB targets = tokB idx ->
  tokens_in_vocab (Config.vocab_size c) targets ->
  exists logits flat loss s',
    BigramLanguageModel.forward m idx None s
    = inr ((BigramLanguageModel.Logits3 logits, None), s') /\
    has_shape (tokB idx) (tokT idx) (Config.vocab_size c) logits /\
    BigramLanguageModel.forward m idx (Some targets) s
    = inr ((BigramLanguageModel.Logits2 flat, Some loss), s') /\
    has_shape2 (tokB idx * tokT idx) (Config.vocab_size c) flat /\
    rows2 flat = concat (data logits).
Proof.
  intros Hc Hm Hwf HT Hv Hwft HTt HBt Hvt.
  destruct (forward_None_ok c m idx s Hc Hm Hwf HT Hv) as (y & s' & E & El & Hy).
  destruct (forward_targets_ok c m idx targets s Hc Hm Hwf HT Hv Hwft HTt HBt Hvt)
    as (y' & loss & s'' & El' & _ & Ec & Ef).
  rewrite El in El'. inversion El'; subst y' s''.
  exists y, (view2 y), loss, s'.
  split; [exact E|]. split; [exact Hy|]. split; [exact Ef|].
  split; [now apply view2_shape | reflexivity].
Qed.

End Claims.


Lemma x0_shape : has_shape 1 3 (Config.n_embd cfg0) x0.
Proof. unfold has_shape, x0, cfg0. simpl. repeat split; repeat constructor. Defined.

Lemma head0_built : Head_built cfg0 2 head0.
Proof. unfold Head_built, head0, cfg0. simpl. repeat split; reflexivity. Defined.

Lemma block0_built : Block_built cfg0 (Config.n_embd cfg0) (Config.n_head cfg0) block0.
Proof.
  unfold Block_built, block0, cfg0. simpl.
  repeat split; try reflexivity. repeat constructor.
Defined.

Lemma idx_long_wf : wf_tokens idx_long.
Proof. repeat constructor. Defined.



(** C3 as stated fails: floor division accepts n_embd = 5, n_head = 2. *)
Lemma C3_counterexample :
  (Config.n_embd cfg_odd mod Config.n_head cfg_odd <> 0)%nat /\
  exists m s', @BigramLanguageModel.init example_runtime cfg_odd tt = inr (m, s').
Proof.
  split; [simpl; lia|].
  destruct (@BigramLanguageModel_init_ok example_runtime cfg_odd tt)
    as (m & s' & E & _).
  - simpl. lia.
  - simpl. lra.
  - eauto.
Qed.

Lemma C3_witness :
  exists m s',
    @BigramLanguageModel.init example_runtime cfg_odd tt = inr (m, s') /\
    built cfg_odd m /\
    @Block.floordiv example_runtime 5 2 tt = inr (2%nat, tt) /\
    forall idx targets t,
      wf_tokens idx -> (tokT idx <= 3)%nat -> tokens_in_vocab 5 idx ->
      @BigramLanguageModel.forward example_runtime m idx targets t
      = inl ShapeMismatch.
Proof.
  destruct (@C3_construction_accepts_indivisible example_runtime cfg_odd tt)
    as (m & s' & E & Hm & Hd & Hf).
  - simpl. lia.
  - simpl. lra.
  - exists m, s'. split; [exact E|]. split; [exact Hm|]. split; [exact Hd|].
    apply Hf; simpl; lia.
Defined.



Lemma head1_built : Head_built cfg0 2 head1.
Proof. unfold Head_built, head1, cfg0. simpl. repeat split; reflexivity. Defined.

Lemma x1_shape : has_shape 1 3 (Config.n_embd cfg0) x1.
Proof. unfold has_shape, x1, cfg0. simpl. repeat split; repeat constructor. Defined.

(** On [head1] and [x1] the first score is 2 / sqrt 4 = 1; a scale by the
    head's own width would give 2 / sqrt 2. *)
Lemma C5_witness :
  exists q k wei,
    @Linear.forward example_runtime (Head.query head1) x1 tt = inr (q, tt) /\
    @Linear.forward example_runtime (Head.key head1) x1 tt = inr (k, tt) /\
    has_shape 1 3 2 q /\ has_shape 1 3 2 k /\
    has_shape 1 3 3 wei /\
    (forall b i j, (b < 1)%nat -> (i < 3)%nat -> (j < 3)%nat ->
       mat_get (nth b (data wei) []) i j
       = dot (nth i (nth b (data q) []) []) (nth j (nth b (data k) []) [])
         * / sqrt (INR (Config.n_embd cfg0))) /\
    @Head.forward example_runtime head1 x1 tt
    = @bind example_runtime _ _
        (@masked_fill example_runtime wei (eq_zero (slice2 (Head.tril head1) 3 3)))
        (fun wei => @bind example_runtime _ _ (@softmax example_runtime wei)
        (fun wei => @bind example_runtime _ _
                      (@Dropout.forward example_runtime (Head.dropout head1) wei)
        (fun wei => @bind example_runtime _ _
                      (@Linear.forward example_runtime (Head.value head1) x1)
        (fun v => @matmul example_runtime wei v)))) tt /\
    mat_get (nth 0 (data wei) []) 0 0 = 1.
Proof.
  destruct (@C5_attention_scale example_runtime cfg0 2 1 3 head1 x1 tt
              head1_built x1_shape ltac:(simpl; lia))
    as (q & k & wei & Eq & Ek & Hq & Hk & Hw & Hent & Hfw).
  exists q, k, wei.
  split; [exact Eq|]. split; [exact Ek|]. split; [exact Hq|].
  split; [exact Hk|]. split; [exact Hw|]. split; [exact Hent|].
  split; [exact Hfw|].
  rewrite (Hent 0%nat 0%nat 0%nat) by lia.
  rewrite (@Linear_forward_eq example_runtime (Head.query head1) x1 tt eq_refl) in Eq.
  rewrite (@Linear_forward_eq example_runtime (Head.key head1) x1 tt eq_refl) in Ek.
  injection Eq as <-. injection Ek as <-.
  unfold map_rows, x1, head1, Linear.apply, dot, rsum, tab. simpl.
  replace (1 + 1 + 1 + 1) with (2 * 2) by lra.
  rewrite sqrt_square by lra. lra.
Defined.

Lemma C6_witness :
  exists n1 a x1 n2 f y s1 s2,
    @LayerNorm.forward example_runtime (Block.ln1 block0) x0 tt = inr (n1, tt) /\
    @MultiHeadAttention.forward example_runtime (Block.sa block0) n1 tt = inr (a, s1) /\
    @add example_runtime x0 a s1 = inr (x1, s1) /\
    data x1 = map2 (map2 vadd) (data x0) (data a) /\
    @LayerNorm.forward example_runtime (Block.ln2 block0) x1 s1 = inr (n2, s1) /\
    @FeedForward.forward example_runtime (Block.ffwd block0) n2 s1 = inr (f, s2) /\
    @add example_runtime x1 f s2 = inr (y, s2) /\
    data y = map2 (map2 vadd) (data x1) (data f) /\
    @Block.forward example_runtime block0 x0 tt = inr (y, s2) /\
    has_shape 1 3 (Config.n_embd cfg0) y.
Proof.
  apply (@C6_block_composition example_runtime cfg0 block0 1 3 x0 tt).
  - exact cfg0_valid.
  - exact block0_built.
  - simpl. lia.
  - exact x0_shape.
Defined.

(** In float32, [v * 0 + 2] is 2, or [nan] when [v] is not finite. *)
Lemma Float32_mul_zero_add_two (v : Float32.f32) :
  Float32.add (Float32.mul v Float32.zero) (Float32.of_Z 2) = Float32.of_Z 2 \/
  Float32.add (Float32.mul v Float32.zero) (Float32.of_Z 2) = SpecFloat.S754_nan.
Proof.
  destruct v as [[|]|[|]| |[|] m e]; vm_compute; auto.
Qed.

(** The final LayerNorm and the output layer of [model_overflow] send every
    row to logits that are [inf] or [nan]. *)
Lemma Float32_row_overflows (blocks : list (tensor3 Float32.f32
                                            -> Float32.M (tensor3 Float32.f32)))
      (r : list Float32.f32) :
  Forall (fun v => Float32.isfinite v = false)
         (Float32.Linear.apply (Float32.lm_head (model_overflow blocks))
            (Float32.LayerNorm.apply (Float32.ln_f (model_overflow blocks)) r)).
Proof.
  unfold Float32.LayerNorm.apply, model_overflow.
  cbn [Float32.ln_f Float32.lm_head Float32.LayerNorm.normalized_shape
       Float32.LayerNorm.weight Float32.LayerNorm.bias tab seq map repeat nth].
  generalize (Float32.div (Float32.sub (nth 0 r Float32.zero) (Float32.LayerNorm.mean r))
                (Float32.sqrt (Float32.add (Float32.LayerNorm.var r)
                                           Float32.LayerNorm.eps))).
  generalize (Float32.div (Float32.sub (nth 1 r Float32.zero) (Float32.LayerNorm.mean r))
                (Float32.sqrt (Float32.add (Float32.LayerNorm.var r)
                                           Float32.LayerNorm.eps))).
  generalize (Float32.div (Float32.sub (nth 2 r Float32.zero) (Float32.LayerNorm.mean r))
                (Float32.sqrt (Float32.add (Float32.LayerNorm.var r)
                                           Float32.LayerNorm.eps))).
  generalize (Float32.div (Float32.sub (nth 3 r Float32.zero) (Float32.LayerNorm.mean r))
                (Float32.sqrt (Float32.add (Float32.LayerNorm.var r)
                                           Float32.LayerNorm.eps))).
  intros v3 v2 v1 v0.
  destruct (Float32_mul_zero_add_two v0) as [-> | ->],
           (Float32_mul_zero_add_two v1) as [-> | ->],
           (Float32_mul_zero_add_two v2) as [-> | ->],
           (Float32_mul_zero_add_two v3) as [-> | ->];
    vm_compute; repeat constructor.
Qed.

(** Whatever the blocks compute in float32, the logits of [model_overflow]
    are not finite. *)
Lemma Float32_overflow_any_blocks
      (blocks : list (tensor3 Float32.f32 -> Float32.M (tensor3 Float32.f32)))
      (idx : tokens) (logits : tensor3 Float32.f32) :
  Float32.forward (model_overflow blocks) idx = inr logits ->
  Forall (Forall (Forall (fun v => Float32.isfinite v = false))) (data logits).
Proof.
  unfold Float32.forward. intros H.
  destruct (Float32.Embedding.forward _ idx) as [e|tok]; [discriminate|].
  cbn [Float32.bind] in H.
  destruct (Float32.Embedding.forward_arange _ (tokT idx)) as [e|pos]; [discriminate|].
  cbn [Float32.bind] in H.
  destruct (Float32.add_broadcast tok pos) as [e|x]; [discriminate|].
  cbn [Float32.bind] in H.
  destruct (Float32.foldM _ _ x) as [e|y]; [discriminate|].
  cbn [Float32.bind] in H.
  unfold Float32.LayerNorm.forward, Float32.Linear.forward in H.
  destruct (Float32.check (dimC y =? _)%nat ShapeMismatch) as [e|[]]; [discriminate|].
  cbn [Float32.bind] in H.
  destruct (Float32.check _ ShapeMismatch) as [e|[]]; [discriminate|].
  cbn [Float32.bind] in H. injection H as <-.
  unfold map_rows. cbn [data]. rewrite map_map.
  apply Forall_map. apply Forall_forall. intros mt _. rewrite map_map.
  apply Forall_map. apply Forall_forall. intros r _.
  exact (Float32_row_overflows blocks r).
Qed.

(** C7 as stated fails in float32.  With embedding entries of 2^127 the
    sum of line 103 overflows to [inf], the final LayerNorm makes [nan] of
    it, and every logit of a model without blocks is [nan].  With an output
    layer of entries 2^127 behind a LayerNorm of weight zero and bias two,
    no logit is finite whatever the blocks compute. *)
Lemma C7_counterexample :
  wf_tokens idx0 /\ (tokT idx0 <= 3)%nat /\ tokens_in_vocab 5 idx0 /\
  (exists logits,
     Float32.forward model_big idx0 = inr logits /\
     has_shape 1 3 5 logits /\
     Forall (Forall (Forall (fun v => Float32.isfinite v = false))) (data logits)) /\
  (forall blocks logits,
     Float32.forward (model_overflow blocks) idx0 = inr logits ->
     Forall (Forall (Forall (fun v => Float32.isfinite v = false))) (data logits)).
Proof.
  split; [exact idx0_wf|]. split; [simpl; lia|]. split; [exact idx0_in_vocab|].
  split.
  - eexists. split; [vm_compute; reflexivity|]. split.
    + unfold has_shape. simpl. repeat split; repeat constructor.
    + repeat constructor.
  - intros blocks logits. apply Float32_overflow_any_blocks.
Qed.

Lemma C7_witness :
  (exists logits s',
     @BigramLanguageModel.forward example_runtime model0 idx0 None tt
     = inr ((BigramLanguageModel.Logits3 logits, None), s') /\
     has_shape 1 3 5 logits) /\
  (forall (b : Block.t) (h : Head.t) (x : tensor3 R) (t : @rng example_runtime),
     In b (BigramLanguageModel.blocks model0) ->
     In h (MultiHeadAttention.heads (Block.sa b)) ->
     has_shape 1 3 4 x ->
     exists masked,
       has_shape 1 3 3 masked /\
       (forall bi i, (bi < 1)%nat -> (i < 3)%nat ->
          exists r, nth i (nth i (nth bi (data masked) []) []) NegInf = Fin r) /\
       (exists wei, @softmax example_runtime masked t = inr (wei, t)) /\
       @Head.forward example_runtime h x t
       = @bind example_runtime _ _ (@softmax example_runtime masked)
           (fun wei => @bind example_runtime _ _
                         (@Dropout.forward example_runtime (Head.dropout h) wei)
           (fun wei => @bind example_runtime _ _
                         (@Linear.forward example_runtime (Head.value h) x)
           (fun v => @matmul example_runtime wei v))) t).
Proof.
  apply (@C7_forward_shape_no_masked_row example_runtime cfg0 model0 idx0 tt).
  - exact cfg0_valid.
  - exact model0_built.
  - exact idx0_wf.
  - simpl. lia.
  - exact idx0_in_vocab.
Defined.

Lemma C8_witness :
  @BigramLanguageModel.next_probs example_runtime model0 idx_long tt
  = @BigramLanguageModel.next_probs example_runtime model0
      (last_columns 3 idx_long) tt /\
  @BigramLanguageModel.next_probs example_runtime model0 idx_long tt
  = @BigramLanguageModel.next_probs example_runtime model0 (Tok 3 [[1; 2; 3]]%nat) tt /\
  @BigramLanguageModel.generate_step example_runtime model0 idx_long tt
  = bind (@BigramLanguageModel.next_probs example_runtime model0 idx_long)
         (fun probs => bind (multinomial probs) (cat_tokens idx_long)) tt.
Proof.
  apply (@C8_sliding_window example_runtime model0 idx_long (Tok 3 [[1; 2; 3]]%nat) tt).
  - exact idx_long_wf.
  - reflexivity.
Defined.

Lemma C9_witness :
  exists logits s',
    @BigramLanguageModel.logits3 example_runtime model0 idx0 tt = inr (logits, s') /\
    @BigramLanguageModel.forward example_runtime model0 idx0 None tt
    = inr ((BigramLanguageModel.Logits3 logits, None), s') /\
    forall targets,
      wf_tokens targets -> tokT targets = tokT idx0 -> tokB targets = tokB idx0 ->
      tokens_in_vocab (Config.vocab_size cfg0) targets ->
      exists loss,
        @cross_entropy example_runtime (view2 logits) (concat (tokRows targets)) s'
        = inr (loss, s') /\
        @BigramLanguageModel.forward example_runtime model0 idx0 (Some targets) tt
        = inr ((BigramLanguageModel.Logits2 (view2 logits), Some loss), s').
Proof.
  apply (@C9_missing_targets example_runtime cfg0 model0 idx0 tt).
  - exact cfg0_valid.
  - exact model0_built.
  - exact idx0_wf.
  - simpl. lia.
  - exact idx0_in_vocab.
Defined.

Lemma C10_witness :
  exists logits flat loss s',
    @BigramLanguageModel.forward example_runtime model0 idx0 None tt
    = inr ((BigramLanguageModel.Logits3 logits, None), s') /\
    has_shape 1 3 5 logits /\
    @BigramLanguageModel.forward example_runtime model0 idx0 (Some idx0) tt
    = inr ((BigramLanguageModel.Logits2 flat, Some loss), s') /\
    has_shape2 3 5 flat /\
    rows2 flat = concat (data logits).
Proof.
  apply (@C10_logits_shape_depends_on_targets example_runtime cfg0 model0 idx0 idx0 tt).
  - exact cfg0_valid.
  - exact model0_built.
  - exact idx0_wf.
  - simpl. lia.
  - exact idx0_in_vocab.
  - exact idx0_wf.
  - reflexivity.
  - reflexivity.
  - exact idx0_in_vocab.
Defined.

(** * Further properties of the code *)

(** ** The mask buffer and the context window *)

Lemma firstn_map_seq {A} (f : nat -> A) (k a n : nat) :
  (k <= n)%nat -> firstn k (map f (seq a n)) = map f (seq a k).
Proof.
  revert a n. induction k as [|k IH]; intros a [|n] H; simpl; try reflexivity; try lia.
  f_equal. apply IH. lia.
Qed.

Lemma firstn_tab {A} (f : nat -> A) (k n : nat) :
  (k <= n)%nat -> firstn k (tab n f) = tab k f.
Proof. intros H. unfold tab. now apply firstn_map_seq. Qed.

(** X1.  Slicing the registered mask: for T <= block_size the slice
    [tril[:T, :T]] of the block_size x block_size lower-triangular buffer
    is the T x T lower-triangular matrix, so a shorter context is masked
    exactly as a model with block_size = T would mask it. *)
Theorem X1_tril_slice (bs T : nat) :
  (T <= bs)%nat -> slice2 (tril_ones bs) T T = tril_ones T.
Proof.
  intros H. unfold slice2, tril_ones. cbn [dimN dimV rows2].
  rewrite Nat.min_l by assumption. f_equal.
  rewrite firstn_tab by assumption. unfold tab at 1. rewrite map_map.
  apply map_ext. intros i. now apply firstn_tab.
Qed.

Lemma X1_witness : slice2 (tril_ones 3) 2 2 = tril_ones 2.
Proof. apply (X1_tril_slice 3 2). lia. Defined.

Lemma skipn_S_tl {A} (k : nat) (l : list A) : skipn (S k) l = tl (skipn k l).
Proof.
  revert l. induction k as [|k IH]; intros [|x l]; try reflexivity.
  rewrite skipn_cons. rewrite IH. reflexivity.
Qed.

Lemma window_row_slides (n : nat) (r t : list nat) :
  (1 <= n)%nat -> (n <= length r)%nat -> length t = 1%nat ->
  skipn (length (r ++ t) - n) (r ++ t) = tl (skipn (length r - n) r) ++ t.
Proof.
  intros Hn Hr Ht. rewrite length_app, Ht.
  replace (length r + 1 - n)%nat with (S (length r - n)) by lia.
  rewrite skipn_app.
  replace (S (length r - n) - length r)%nat with O by lia.
  rewrite skipn_S_tl. reflexivity.
Qed.

Section Window.

Context {RT : Runtime}.

(** X2.  The context window slides.  Once the running sequence is at least
    n = block_size long, appending the sampled column (line 127) and
    cropping again (line 121) drops the oldest token of every row and keeps
    the rest of the previous window, followed by the new token. *)
Theorem X2_window_slides (n : nat) (idx new : tokens) (s : rng) :
  (1 <= n)%nat -> (n <= tokT idx)%nat ->
  wf_tokens idx -> wf_tokens new -> tokT new = 1%nat -> tokB new = tokB idx ->
  exists idx',
    cat_tokens idx new s = inr (idx', s) /\
    tokT (last_columns n idx') = n /\
    tokRows (last_columns n idx')
    = map2 (fun r t => tl r ++ t) (tokRows (last_columns n idx)) (tokRows new).
Proof.
  intros Hn HT Hwf Hwn HTn HB. eexists. split; [|split].
  - unfold cat_tokens. rewrite check_ok; [reflexivity|].
    apply Nat.eqb_eq. now symmetry.
  - destruct n as [|n]; [lia|]. cbn [last_columns tokT]. lia.
  - destruct n as [|n]; [lia|]. cbn [last_columns tokT tokRows].
    unfold wf_tokens in Hwf, Hwn. rewrite HTn in Hwn. unfold tokB in HB.
    revert Hwf Hwn HB. generalize (tokRows new). generalize (tokRows idx).
    induction l as [|r l IH]; intros [|t l0] Hwf Hwn HB; simpl in HB;
      try discriminate; [reflexivity|].
    inversion_clear Hwf as [|? ? Hr Hl]. inversion_clear Hwn as [|? ? Ht Hl0].
    cbn [map2 map]. f_equal.
    + apply window_row_slides; lia.
    + apply IH; auto.
Qed.

(** X3.  Generation composes: producing j + k tokens is producing j tokens
    and then k more from the sequence and the generator state reached, with
    an error of the first part ending the whole. *)
Theorem X3_generate_add (m : BigramLanguageModel.t) (j k : nat) (idx : tokens)
        (s : rng) :
  BigramLanguageModel.generate m idx (j + k) s
  = bind (BigramLanguageModel.generate m idx j)
         (fun i => BigramLanguageModel.generate m i k) s.
Proof.
  revert idx s. induction j as [|j IH]; intros idx s.
  - reflexivity.
  - change (BigramLanguageModel.generate m idx (S j + k) s)
      with (bind (BigramLanguageModel.generate_step m idx)
                 (fun i => BigramLanguageModel.generate m i (j + k)) s).
    change (BigramLanguageModel.generate m idx (S j))
      with (bind (BigramLanguageModel.generate_step m idx)
                 (fun i => BigramLanguageModel.generate m i j)).
    rewrite bind_assoc. apply bind_ext. intros a t. apply IH.
Qed.

Lemma empty_rows_in_vocab (V : nat) (idx : tokens) :
  wf_tokens idx -> tokT idx = 0%nat -> tokens_in_vocab V idx.
Proof.
  unfold wf_tokens, tokens_in_vocab. intros H HT. rewrite HT in H.
  eapply Forall_impl; [|exact H]. intros r Hr. simpl in Hr.
  destruct r; [constructor | discriminate].
Qed.

(** X4.  An empty prompt cannot be extended: on a token array with no
    columns the forward pass itself returns (logits of shape (B, 0, V)),
    and [logits[:, -1, :]] on line 124 raises IndexError, so [generate]
    fails for every max_new_tokens >= 1. *)
Theorem X4_generate_empty_prompt (c : Config.t) (m : BigramLanguageModel.t)
        (idx : tokens) (k : nat) (s : rng) :
  valid_config c -> built c m -> wf_tokens idx -> tokT idx = 0%nat ->
  (exists logits s',
     BigramLanguageModel.forward m idx None s
     = inr ((BigramLanguageModel.Logits3 logits, None), s') /\
     has_shape (tokB idx) 0 (Config.vocab_size c) logits) /\
  BigramLanguageModel.generate m idx (S k) s = inl IndexError.
Proof.
  intros Hc Hm Hwf HT.
  pose proof (empty_rows_in_vocab (Config.vocab_size c) idx Hwf HT) as Hv.
  split.
  - destruct (forward_None_ok c m idx s Hc Hm Hwf ltac:(lia) Hv)
      as (y & s' & E & _ & Hy).
    rewrite HT in Hy. eauto.
  - cbn [BigramLanguageModel.generate]. apply bind_err.
    unfold BigramLanguageModel.generate_step. apply bind_err.
    unfold BigramLanguageModel.next_probs.
    assert (Hcfg : BigramLanguageModel.config m = c) by (destruct Hm; tauto).
    rewrite Hcfg.
    assert (Hbs : (1 <= Config.block_size c)%nat) by (destruct Hc; tauto).
    destruct (forward_None_ok c m (last_columns (Config.block_size c) idx) s Hc Hm)
      as (logits & s' & E & _ & Hl).
    { now apply last_columns_wf. }
    { now apply last_columns_le. }
    { now apply last_columns_in_vocab. }
    rewrite (bind_ok _ E). cbn [fst]. apply bind_err.
    unfold select_last. destruct Hl as (-> & _).
    rewrite last_columns_tokT by assumption. rewrite HT, Nat.min_0_r. reflexivity.
Qed.

End Window.

Lemma X2_witness :
  exists idx',
    @cat_tokens example_runtime idx_long (Tok 1 [[4]]%nat) tt = inr (idx', tt) /\
    tokT (last_columns 3 idx') = 3%nat /\
    tokRows (last_columns 3 idx')
    = map2 (fun r t => tl r ++ t) (tokRows (last_columns 3 idx_long)) [[4]]%nat.
Proof.
  apply (@X2_window_slides example_runtime 3 idx_long (Tok 1 [[4]]%nat) tt).
  - lia.
  - simpl. lia.
  - exact idx_long_wf.
  - repeat constructor.
  - reflexivity.
  - reflexivity.
Defined.

Lemma X4_witness :
  (exists logits s',
     @BigramLanguageModel.forward example_runtime model0 (Tok 0 [[]]) None tt
     = inr ((BigramLanguageModel.Logits3 logits, None), s') /\
     has_shape 1 0 5 logits) /\
  @BigramLanguageModel.generate example_runtime model0 (Tok 0 [[]]) 1 tt
  = inl IndexError.
Proof.
  apply (@X4_generate_empty_prompt example_runtime cfg0 model0 (Tok 0 [[]]) 0 tt).
  - exact cfg0_valid.
  - exact model0_built.
  - repeat constructor.
  - reflexivity.
Defined.

(** ** Softmax and the loss *)

Lemma rsum_map_div {A} (f : A -> R) (z : R) (l : list A) :
  rsum (map (fun v => f v / z) l) = rsum (map f l) / z.
Proof.
  induction l as [|a l IH]; simpl.
  - unfold Rdiv. now rewrite Rmult_0_l.
  - rewrite IH. unfold Rdiv. ring.
Qed.

Lemma xexp_nonneg (v : xreal) : 0 <= xexp v.
Proof. destruct v; simpl; [lra | left; apply exp_pos]. Qed.

Lemma rsum_xexp_nonneg (row : list xreal) : 0 <= rsum (map xexp row).
Proof.
  induction row as [|v row IH]; simpl; [lra|].
  pose proof (xexp_nonneg v). lra.
Qed.

Lemma rsum_xexp_pos (row : list xreal) :
  (exists r, In (Fin r) row) -> 0 < rsum (map xexp row).
Proof.
  intros (r & Hr). induction row as [|v row IH]; [contradiction|].
  simpl. destruct Hr as [->|Hr].
  - simpl. pose proof (exp_pos r). pose proof (rsum_xexp_nonneg row). lra.
  - pose proof (xexp_nonneg v). specialize (IH Hr). lra.
Qed.

(** A softmax row with a finite entry is a probability distribution. *)
Lemma softmax_val_sum (row : list xreal) :
  (exists r, In (Fin r) row) -> rsum (softmax_val row) = 1.
Proof.
  intros H. unfold softmax_val. rewrite rsum_map_div.
  pose proof (rsum_xexp_pos row H). field. lra.
Qed.

Lemma softmax_val_nonneg (row : list xreal) :
  (exists r, In (Fin r) row) -> Forall (fun p => 0 <= p) (softmax_val row).
Proof.
  intros H. unfold softmax_val. apply Forall_map. apply Forall_forall.
  intros v _. pose proof (rsum_xexp_pos row H). pose proof (xexp_nonneg v).
  apply Rmult_le_pos; [assumption|]. left. now apply Rinv_0_lt_compat.
Qed.




Section LossProperties.

Context {RT : Runtime}.






(** X7.  Targets of the wrong size.  With a token array the forward pass
    accepts, targets whose number of elements differs from batch * time
    make [targets.view(B*T)] fail with a size error, after the logits have
    been computed. *)
Theorem X7_target_count_mismatch (c : Config.t) (m : BigramLanguageModel.t)
        (idx targets : tokens) (s : rng) :
  valid_config c -> built c m -> wf_tokens idx ->
  (tokT idx <= Config.block_size c)%nat ->
  tokens_in_vocab (Config.vocab_size c) idx ->
  (tokB targets * tokT targets <> tokB idx * tokT idx)%nat ->
  (exists logits s', BigramLanguageModel.logits3 m idx s = inr (logits, s')) /\
  BigramLanguageModel.forward m idx (Some targets) s = inl ShapeMismatch.
Proof.
  intros Hc Hm Hwf HT Hv Hne.
  destruct (logits3_ok c m idx s Hc Hm Hwf HT Hv) as (y & s' & E & Hy).
  split; [eauto|].
  unfold BigramLanguageModel.forward. rewrite (bind_ok _ E).
  apply bind_err. unfold view1. apply check_fail.
  apply Nat.eqb_neq. destruct Hy as (-> & _ & -> & _). exact Hne.
Qed.

(** X19.  A target class that does not exist.  With a token array the
    forward pass accepts and targets of batch * time elements, a target id
    that is not below vocab_size makes the cross-entropy of line 113 fail
    with IndexError, after the logits have been computed.  (Target ids are
    natural numbers here: negative ids, among them the ignore_index -100,
    are outside this statement.) *)
Theorem X19_target_out_of_range (c : Config.t) (m : BigramLanguageModel.t)
        (idx targets : tokens) (s : rng) :
  valid_config c -> built c m -> wf_tokens idx ->
  (tokT idx <= Config.block_size c)%nat ->
  tokens_in_vocab (Config.vocab_size c) idx ->
  wf_tokens targets ->
  (tokB targets * tokT targets = tokB idx * tokT idx)%nat ->
  Exists (Exists (fun t => (Config.vocab_size c <= t)%nat)) (tokRows targets) ->
  (exists logits s', BigramLanguageModel.logits3 m idx s = inr (logits, s')) /\
  BigramLanguageModel.forward m idx (Some targets) s = inl IndexError.
Proof.
  intros Hc Hm Hwf HT Hv Hwft Hnum Hbad.
  destruct (logits3_ok c m idx s Hc Hm Hwf HT Hv) as (y & s' & E & Hy).
  split; [eauto|].
  unfold BigramLanguageModel.forward. rewrite (bind_ok _ E).
  erewrite bind_ok
    by (apply view1_eq; destruct Hy as (-> & _ & -> & _); congruence).
  apply bind_err. unfold cross_entropy.
  rewrite check_ok.
  - apply check_fail.
    destruct (forallb _ (concat (tokRows targets))) eqn:Ef; [|reflexivity].
    exfalso. rewrite forallb_forall in Ef.
    apply Exists_exists in Hbad. destruct Hbad as (r & Hr & Hbad).
    apply Exists_exists in Hbad. destruct Hbad as (t & Ht & Hge).
    assert (Hin : In t (concat (tokRows targets))).
    { apply in_concat. eauto. }
    specialize (Ef t Hin). apply Nat.ltb_lt in Ef.
    simpl in Ef. destruct Hy as (_ & HC & _). rewrite HC in Ef. lia.
  - apply Nat.eqb_eq. simpl.
    rewrite (length_concat_rows (tokT targets)) by exact Hwft.
    fold (tokB targets). destruct Hy as (-> & _ & -> & _). congruence.
Qed.

Lemma next_probs_rows (c : Config.t) (m : BigramLanguageModel.t) (idx : tokens)
      (s : rng) :
  valid_config c -> built c m -> wf_tokens idx -> (1 <= tokT idx)%nat ->
  tokens_in_vocab (Config.vocab_size c) idx ->
  exists last s',
    has_shape2 (tokB idx) (Config.vocab_size c) last /\
    BigramLanguageModel.next_probs m idx s
    = inr (T2 (dimN last) (dimV last)
              (map (fun r => softmax_val (map Fin r)) (rows2 last)), s').
Proof.
  intros Hc Hm Hwf HT Hv.
  assert (Hbs : (1 <= Config.block_size c)%nat) by (destruct Hc; tauto).
  assert (Hcfg : BigramLanguageModel.config m = c) by (destruct Hm; tauto).
  unfold BigramLanguageModel.next_probs. rewrite Hcfg.
  destruct (forward_None_ok c m (last_columns (Config.block_size c) idx) s Hc Hm)
    as (logits & s' & E & _ & Hl).
  { now apply last_columns_wf. }
  { now apply last_columns_le. }
  { now apply last_columns_in_vocab. }
  rewrite (bind_ok _ E). cbn [fst].
  rewrite last_columns_tokB in Hl.
  assert (HT' : (1 <= tokT (last_columns (Config.block_size c) idx))%nat)
    by (rewrite last_columns_tokT; lia).
  destruct (select_last_ok _ _ _ logits s' HT' Hl) as (y & E1 & Hy).
  rewrite (bind_ok _ E1). exists y, s'. split; [exact Hy | apply softmax2_eq].
Qed.

(** X8.  What [torch.multinomial] is given on line 126: for every row of
    the batch, vocab_size probabilities, none of them negative, that sum to
    one. *)
Theorem X8_next_token_distribution (c : Config.t) (m : BigramLanguageModel.t)
        (idx : tokens) (s : rng) :
  valid_config c -> built c m -> wf_tokens idx -> (1 <= tokT idx)%nat ->
  tokens_in_vocab (Config.vocab_size c) idx ->
  exists probs s',
    BigramLanguageModel.next_probs m idx s = inr (probs, s') /\
    has_shape2 (tokB idx) (Config.vocab_size c) probs /\
    Forall (fun row => Forall (fun p => 0 <= p) row /\ rsum row = 1) (rows2 probs).
Proof.
  intros Hc Hm Hwf HT Hv.
  destruct (next_probs_rows c m idx s Hc Hm Hwf HT Hv) as (last & s' & Hl & E).
  assert (HV : (1 <= Config.vocab_size c)%nat) by (destruct Hc; tauto).
  eexists. exists s'. split; [exact E|].
  destruct Hl as (HN & HVl & HB & HF). split.
  - repeat split; simpl; auto.
    + now rewrite length_map.
    + apply Forall_map. eapply Forall_impl; [|exact HF].
      intros r Hr. simpl. unfold softmax_val. now rewrite !length_map.
  - simpl. apply Forall_map. eapply Forall_impl; [|exact HF].
    intros r Hr. simpl in *.
    assert (Hne : r <> []) by (intros ->; simpl in Hr; lia).
    assert (Hfin : exists v, In (Fin v) (map Fin r)).
    { destruct r as [|a r]; [congruence|]. exists a. now left. }
    split; [now apply softmax_val_nonneg | now apply softmax_val_sum].
Qed.

End LossProperties.

(** ** The components on their own *)




Section Components.

Context {RT : Runtime}.





(** X12.  A head returns in training mode too, with one row of width
    head_size per input row: its output has shape (B, T, head_size). *)
Theorem X12_head_shape (c : Config.t) (hs B T : nat) (h : Head.t)
        (x : tensor3 R) (s : rng) :
  Head_built c hs h ->
  has_shape B T (Config.n_embd c) x ->
  (1 <= Config.n_embd c)%nat -> (T <= Config.block_size c)%nat ->
  exists y s', Head.forward h x s = inr (y, s') /\ has_shape B T hs y.
Proof. apply Head_forward_ok. Qed.

(** X13.  MultiHeadAttention keeps the shape exactly when the heads fill the
    embedding: with num_heads >= 1 heads of size head_size on an input of
    shape (B, T, n_embd), [forward] returns a tensor of shape (B, T, n_embd)
    if num_heads * head_size = n_embd, and otherwise fails with a size
    mismatch at [self.proj], after every head has run. *)
Theorem X13_multi_head_width (c : Config.t) (nh hs B T : nat)
        (a : MultiHeadAttention.t) (x : tensor3 R) (s : rng) :
  MultiHeadAttention_built c nh hs a ->
  (1 <= nh)%nat -> (1 <= Config.n_embd c)%nat ->
  (T <= Config.block_size c)%nat ->
  has_shape B T (Config.n_embd c) x ->
  ((nh * hs = Config.n_embd c)%nat ->
   exists y s', MultiHeadAttention.forward a x s = inr (y, s') /\
                has_shape B T (Config.n_embd c) y) /\
  ((nh * hs <> Config.n_embd c)%nat ->
   MultiHeadAttention.forward a x s = inl ShapeMismatch).
Proof.
  intros Ha Hnh Hn HT Hx. split; intros Hd.
  - now apply (MultiHeadAttention_forward_ok c nh hs).
  - now apply (MultiHeadAttention_forward_mismatch c nh hs B T).
Qed.

(** X14.  MultiHeadAttention with no heads: [MultiHeadAttention(0, head_size,
    config)] is constructed without error, and every call of its [forward]
    fails at [torch.cat] of the empty list of head outputs. *)
Theorem X14_no_heads (hs : nat) (c : Config.t) (s : rng) :
  0 <= Config.dropout c <= 1 ->
  exists a s',
    MultiHeadAttention.init 0 hs c s = inr (a, s') /\
    MultiHeadAttention.heads a = [] /\
    forall x t, MultiHeadAttention.forward a x t = inl EmptyCat.
Proof.
  intros Hp. unfold MultiHeadAttention.init. cbn [seq mapM].
  rewrite (bind_ok _ (a := []) (s1 := s)) by reflexivity.
  destruct (Linear_init_ok (Config.n_embd c) (Config.n_embd c) true s)
    as (pr & s1 & E & _).
  rewrite (bind_ok _ E), (bind_ok _ (Dropout_init_ok _ s1 Hp)).
  eexists. eexists. split; [reflexivity|]. split; [reflexivity|].
  intros x t. reflexivity.
Qed.

Lemma FeedForward_forward_eval (n B T : nat) (f : FeedForward.t)
      (x : tensor3 R) (s : rng) :
  FeedForward_built n f ->
  Dropout.disabled (FeedForward.dropout f) = true ->
  has_shape B T n x ->
  FeedForward.forward f x s = inr (map_rows (ff_row f) n x, s).
Proof.
  intros ([H1i H1o] & [H2i H2o]) Hd (HT & HC & HB & HF).
  unfold FeedForward.forward.
  rewrite (bind_ok _ (Linear_forward_eq _ _ _ (eq_trans HC (eq_sym H1i)))).
  erewrite bind_ok by (apply Linear_forward_eq; simpl; congruence).
  rewrite Dropout_forward_eval by assumption.
  unfold FeedForward.GELU, map_rows, ff_row. cbn [data dimT dimC].
  rewrite H2o, !map_map. do 3 f_equal.
  apply map_ext. intros mt. rewrite !map_map. reflexivity.
Qed.

(** X15.  FeedForward is position-wise: with dropout disabled, every row of
    the output is the same function (linear, GELU, linear) of the row of
    the input at the same batch index and position, and of nothing else; the
    shape (B, T, n_embd) is kept. *)
Theorem X15_feed_forward_position_wise (n B T : nat) (f : FeedForward.t)
        (x : tensor3 R) (s : rng) :
  FeedForward_built n f ->
  Dropout.disabled (FeedForward.dropout f) = true ->
  has_shape B T n x ->
  exists y,
    FeedForward.forward f x s = inr (y, s) /\
    has_shape B T n y /\
    forall b t, (b < B)%nat -> (t < T)%nat ->
      nth t (nth b (data y) []) [] = ff_row f (nth t (nth b (data x) []) []).
Proof.
  intros Hf Hd Hx.
  pose proof Hx as (HT & HC & HB & HF).
  exists (map_rows (ff_row f) n x). split; [|split].
  - now apply (FeedForward_forward_eval n B T).
  - apply (has_shape_map_rows B T n n); [|exact Hx].
    intros r. unfold ff_row. rewrite Linear_apply_length.
    destruct Hf as (_ & _ & Ho). exact Ho.
  - intros b t Hb Ht. unfold map_rows. cbn [data].
    rewrite (nth_map_lt _ _ _ []) by lia.
    rewrite (nth_map_lt _ _ _ []); [reflexivity|].
    rewrite Forall_forall in HF.
    destruct (HF (nth b (data x) []) ltac:(apply nth_In; lia)) as [Hm _]. lia.
Qed.

End Components.

(** ** Construction: failures and the mode of a new model *)

Section ConstructionProperties.

Context {RT : Runtime}.

Lemma Dropout_init_fail (p : R) (s : rng) :
  ~ (0 <= p <= 1) -> Dropout.init p s = inl ValueError.
Proof.
  intros H. unfold Dropout.init.
  destruct (Rle_dec 0 p); [|reflexivity].
  destruct (Rle_dec p 1); [|reflexivity]. exfalso. apply H. split; assumption.
Qed.

Lemma Dropout_init_inv (p : R) (s s' : rng) (d : Dropout.t) :
  Dropout.init p s = inr (d, s') -> d = Dropout.Make p true.
Proof.
  unfold Dropout.init. destruct (Rle_dec 0 p); [|discriminate].
  destruct (Rle_dec p 1); [|discriminate].
  intros H. apply ret_inv in H. now inversion H.
Qed.

Lemma Head_init_fail (hs : nat) (c : Config.t) (s : rng) :
  ~ (0 <= Config.dropout c <= 1) -> Head.init hs c s = inl ValueError.
Proof.
  intros Hp. unfold Head.init.
  destruct (Linear_init_ok (Config.n_embd c) hs false s) as (k & s1 & E1 & _).
  rewrite (bind_ok _ E1).
  destruct (Linear_init_ok (Config.n_embd c) hs false s1) as (q & s2 & E2 & _).
  rewrite (bind_ok _ E2).
  destruct (Linear_init_ok (Config.n_embd c) hs false s2) as (v & s3 & E3 & _).
  rewrite (bind_ok _ E3).
  apply bind_err. now apply Dropout_init_fail.
Qed.

Lemma embeddings_init_ok (c : Config.t) (s : rng) :
  exists te pe s2,
    forall A (k : Embedding.t -> Embedding.t -> M A),
      bind (Embedding.init (Config.vocab_size c) (Config.n_embd c))
           (fun te => bind (Embedding.init (Config.block_size c) (Config.n_embd c))
                           (fun pe => k te pe)) s
      = k te pe s2.
Proof.
  destruct (Embedding_init_ok (Config.vocab_size c) (Config.n_embd c) s)
    as (te & s1 & E1 & _).
  destruct (Embedding_init_ok (Config.block_size c) (Config.n_embd c) s1)
    as (pe & s2 & E2 & _).
  exists te, pe, s2. intros A k.
  now rewrite (bind_ok _ E1), (bind_ok _ E2).
Qed.

Lemma init_no_layer (c : Config.t) (s : rng) :
  Config.n_layer c = 0%nat ->
  exists m s', BigramLanguageModel.init c s = inr (m, s') /\
               BigramLanguageModel.config m = c /\
               BigramLanguageModel.blocks m = [].
Proof.
  intros Hl. destruct (embeddings_init_ok c s) as (te & pe & s2 & Hk).
  unfold BigramLanguageModel.init. rewrite Hk. clear Hk.
  rewrite Hl. cbn [seq mapM].
  rewrite (bind_ok _ (a := []) (s1 := s2)) by reflexivity.
  unfold LayerNorm.init.
  rewrite (bind_ok _ (a := LayerNorm.Make (Config.n_embd c)
    (repeat 1 (Config.n_embd c)) (repeat 0 (Config.n_embd c))) (s1 := s2))
    by reflexivity.
  destruct (Linear_init_ok (Config.n_embd c) (Config.vocab_size c) true s2)
    as (lh & s4 & E4 & _).
  rewrite (bind_ok _ E4). eexists. eexists. split; [reflexivity|].
  split; reflexivity.
Qed.

Lemma init_no_head (c : Config.t) (s : rng) :
  (1 <= Config.n_layer c)%nat -> Config.n_head c = 0%nat ->
  BigramLanguageModel.init c s = inl ZeroDivisionError.
Proof.
  intros Hl Hh. destruct (embeddings_init_ok c s) as (te & pe & s2 & Hk).
  unfold BigramLanguageModel.init. rewrite Hk. clear Hk.
  destruct (Config.n_layer c) as [|n]; [lia|].
  cbn [seq mapM]. apply bind_err. apply bind_err.
  unfold Block.init. apply bind_err. now rewrite Hh.
Qed.

(** X16.  How construction ends.  With n_layer = 0 no Block is built, so
    construction succeeds whatever n_head and dropout are.  With at least
    one layer, n_head = 0 raises ZeroDivisionError at line 71, and n_head
    >= 1 with a dropout probability outside [0, 1] raises the ValueError of
    the first nn.Dropout. *)
Theorem X16_construction_outcome (c : Config.t) (s : rng) :
  (Config.n_layer c = 0%nat ->
   exists m s', BigramLanguageModel.init c s = inr (m, s') /\
                BigramLanguageModel.blocks m = []) /\
  ((1 <= Config.n_layer c)%nat -> Config.n_head c = 0%nat ->
   BigramLanguageModel.init c s = inl ZeroDivisionError) /\
  ((1 <= Config.n_layer c)%nat -> (1 <= Config.n_head c)%nat ->
   ~ (0 <= Config.dropout c <= 1) ->
   BigramLanguageModel.init c s = inl ValueError).
Proof.
  split; [|split].
  - intros Hl. destruct (init_no_layer c s Hl) as (m & s' & E & _ & Hb). eauto.
  - apply init_no_head.
  - intros Hl Hh Hp. destruct (embeddings_init_ok c s) as (te & pe & s2 & Hk).
    unfold BigramLanguageModel.init. rewrite Hk. clear Hk.
    destruct (Config.n_layer c) as [|n]; [lia|].
    cbn [seq mapM]. apply bind_err. apply bind_err.
    unfold Block.init. rewrite (bind_ok _ (floordiv_eq _ _ s2 Hh)).
    apply bind_err. unfold MultiHeadAttention.init.
    destruct (Config.n_head c) as [|k]; [lia|].
    cbn [seq mapM]. apply bind_err. apply bind_err. now apply Head_init_fail.
Qed.

Lemma mapM_const_inv {A} (P : A -> Prop) (c : M A) (l : list nat) :
  (forall s a s', c s = inr (a, s') -> P a) ->
  forall s bs s', mapM (fun _ : nat => c) l s = inr (bs, s') ->
                  Forall P bs /\ length bs = length l.
Proof.
  intros Hc. induction l as [|x l IH]; intros s bs s' H; simpl in H.
  - apply ret_inv in H. inversion H. split; [constructor | reflexivity].
  - apply bind_inv in H. destruct H as (a & s1 & Ea & H).
    apply bind_inv in H. destruct H as (bs' & s2 & El & H).
    apply ret_inv in H. inversion H; subst.
    destruct (IH _ _ _ El) as [IH1 IH2].
    split; [constructor; eauto | simpl; congruence].
Qed.

Lemma Head_init_inv (hs : nat) (c : Config.t) (s s' : rng) (h : Head.t) :
  Head.init hs c s = inr (h, s') ->
  Head.dropout h = Dropout.Make (Config.dropout c) true.
Proof.
  unfold Head.init. intros H. minv H.
  apply ret_inv in H. inversion H; subst. simpl.
  repeat match goal with
         | E : Dropout.init _ _ = inr _ |- _ => apply Dropout_init_inv in E
         end.
  assumption.
Qed.

Lemma MultiHeadAttention_init_inv (nh hs : nat) (c : Config.t) (s s' : rng)
      (a : MultiHeadAttention.t) :
  MultiHeadAttention.init nh hs c s = inr (a, s') ->
  Forall (fun h => Head.dropout h = Dropout.Make (Config.dropout c) true)
         (MultiHeadAttention.heads a) /\
  MultiHeadAttention.dropout a = Dropout.Make (Config.dropout c) true.
Proof.
  unfold MultiHeadAttention.init. intros H.
  apply bind_inv in H. destruct H as (hl & s1 & Eh & H). minv H.
  apply ret_inv in H. inversion H; subst. simpl.
  repeat match goal with
         | E : Dropout.init _ _ = inr _ |- _ => apply Dropout_init_inv in E
         end.
  split; [|assumption].
  apply (mapM_const_inv
           (fun h => Head.dropout h = Dropout.Make (Config.dropout c) true)
           (Head.init hs c) (seq 0 nh)
           (fun t a t' => Head_init_inv hs c t t' a) s hl s1 Eh).
Qed.

Lemma FeedForward_init_inv (n : nat) (c : Config.t) (s s' : rng)
      (f : FeedForward.t) :
  FeedForward.init n c s = inr (f, s') ->
  FeedForward.dropout f = Dropout.Make (Config.dropout c) true.
Proof.
  unfold FeedForward.init. intros H. minv H.
  apply ret_inv in H. inversion H; subst. simpl.
  repeat match goal with
         | E : Dropout.init _ _ = inr _ |- _ => apply Dropout_init_inv in E
         end.
  assumption.
Qed.

Lemma Block_init_inv (c : Config.t) (n nh : nat) (s s' : rng) (b : Block.t) :
  Block.init c n nh s = inr (b, s') ->
  Block_dropouts (fun d => d = Dropout.Make (Config.dropout c) true) b.
Proof.
  unfold Block.init. intros H.
  apply bind_inv in H. destruct H as (hsz & s1 & _ & H).
  apply bind_inv in H. destruct H as (a & s2 & Ea & H).
  apply bind_inv in H. destruct H as (f & s3 & Ef & H).
  minv H. apply ret_inv in H. inversion H; subst. clear H.
  apply MultiHeadAttention_init_inv in Ea. apply FeedForward_init_inv in Ef.
  unfold Block_dropouts. simpl. tauto.
Qed.

Lemma init_inv (c : Config.t) (s s' : rng) (m : BigramLanguageModel.t) :
  BigramLanguageModel.init c s = inr (m, s') ->
  BigramLanguageModel.config m = c /\
  length (BigramLanguageModel.blocks m) = Config.n_layer c /\
  Forall (Block_dropouts (fun d => d = Dropout.Make (Config.dropout c) true))
         (BigramLanguageModel.blocks m).
Proof.
  unfold BigramLanguageModel.init. intros H.
  apply bind_inv in H. destruct H as (te & s1 & _ & H).
  apply bind_inv in H. destruct H as (pe & s2 & _ & H).
  apply bind_inv in H. destruct H as (bl & s3 & Eb & H).
  minv H. apply ret_inv in H. inversion H; subst. clear H. simpl.
  destruct (mapM_const_inv
              (Block_dropouts (fun d => d = Dropout.Make (Config.dropout c) true))
              (Block.init c (Config.n_embd c) (Config.n_head c))
              (seq 0 (Config.n_layer c))
              (fun t a t' => Block_init_inv c _ _ t t' a) s2 bl s3 Eb) as [HF Hl].
  rewrite length_seq in Hl. auto.
Qed.

(** X17.  A new model is in training mode.  Every Dropout module of a
    constructed model carries p = config.dropout and training = True.
    Dropout is therefore disabled in a new model with config.dropout = 0,
    and enabled in one with config.dropout <> 0 and at least one block. *)
Theorem X17_new_model_trains (c : Config.t) (s s' : rng)
        (m : BigramLanguageModel.t) :
  BigramLanguageModel.init c s = inr (m, s') ->
  BigramLanguageModel.config m = c /\
  Forall (Block_dropouts (fun d => d = Dropout.Make (Config.dropout c) true))
         (BigramLanguageModel.blocks m) /\
  (Config.dropout c = 0 -> dropout_disabled m) /\
  (Config.dropout c <> 0 -> (1 <= Config.n_layer c)%nat -> ~ dropout_disabled m).
Proof.
  intros H. destruct (init_inv c s s' m H) as (Hc & Hlen & HF).
  split; [exact Hc|]. split; [exact HF|]. split.
  - intros Hp. unfold dropout_disabled.
    eapply Forall_impl; [|exact HF].
    intros b (Hhd & Hm & Hf). unfold Block_eval, Head_eval.
    assert (Hd : Dropout.disabled (Dropout.Make (Config.dropout c) true) = true).
    { unfold Dropout.disabled. simpl. rewrite Hp.
      destruct (Req_dec_T 0 0); [reflexivity | lra]. }
    split; [|split].
    + eapply Forall_impl; [|exact Hhd]. intros h Eh. simpl in Eh. now rewrite Eh.
    + now rewrite Hm.
    + now rewrite Hf.
  - intros Hp Hl Hd. unfold dropout_disabled in Hd.
    destruct (BigramLanguageModel.blocks m) as [|b bl]; [simpl in Hlen; lia|].
    inversion_clear HF as [|? ? (_ & Hm & _) _].
    inversion_clear Hd as [|? ? (_ & Hdm & _) _].
    rewrite Hm in Hdm. unfold Dropout.disabled in Hdm. simpl in Hdm.
    destruct (Req_dec_T (Config.dropout c) 0); [contradiction | discriminate].
Qed.

End ConstructionProperties.

(** ** The forward pass in eval mode draws no random number *)

Section Seqwise.

Context {RT : Runtime}.

Lemma seqwise_intro (T C C' : nat) (F : tensor3 R -> M (tensor3 R))
      (g : list (list R) -> list (list R)) :
  (forall B x s, has_shape B T C x -> F x s = inr (T3 T C' (map g (data x)), s)) ->
  (forall B x s, has_shape B T C x ->
                 exists y s', F x s = inr (y, s') /\ has_shape B T C' y) ->
  seqwise T C C' F.
Proof.
  intros H1 H2. exists g. intros B x s Hx. split; [now apply (H1 B)|].
  destruct (H2 B x s Hx) as (y & s' & E & Hy).
  rewrite (H1 B x s Hx) in E. inversion E; subst. exact Hy.
Qed.

Lemma seqwise_ext (T C C' : nat) (F G : tensor3 R -> M (tensor3 R)) :
  (forall x s, F x s = G x s) -> seqwise T C C' F -> seqwise T C C' G.
Proof.
  intros HE (g & Hg). exists g. intros B x s Hx. rewrite <- HE. now apply Hg.
Qed.

Lemma seqwise_bind (T C C1 C2 : nat) (F G : tensor3 R -> M (tensor3 R)) :
  seqwise T C C1 F -> seqwise T C1 C2 G ->
  seqwise T C C2 (fun x => bind (F x) G).
Proof.
  intros (g1 & H1) (g2 & H2). exists (fun m => g2 (g1 m)).
  intros B x s Hx. destruct (H1 B x s Hx) as [E1 S1].
  destruct (H2 B _ s S1) as [E2 S2]. cbn [data] in E2, S2.
  rewrite map_map in E2, S2. rewrite (bind_ok _ E1). split; assumption.
Qed.

Lemma tensor3_eta (B T C : nat) (x : tensor3 R) :
  has_shape B T C x -> x = T3 T C (map (fun m => m) (data x)).
Proof.
  intros (HT & HC & _). destruct x as [t c d]. simpl in *. subst.
  now rewrite map_id.
Qed.

Lemma seqwise_ret (T C : nat) : seqwise T C C (fun x => ret x).
Proof.
  exists (fun m => m). intros B x s Hx.
  rewrite <- (tensor3_eta B T C x Hx). split; [reflexivity | exact Hx].
Qed.

Lemma seqwise_map_rows (T C O : nat) (F : tensor3 R -> M (tensor3 R))
      (f : list R -> list R) (O' : nat) :
  O' = O ->
  (forall B x s, has_shape B T C x -> F x s = inr (map_rows f O' x, s)) ->
  (forall r, length (f r) = O) ->
  seqwise T C O F.
Proof.
  intros -> HF Hlen. exists (map f). intros B x s Hx.
  rewrite (HF B x s Hx). unfold map_rows.
  pose proof Hx as (HT & _). rewrite HT. split; [reflexivity|].
  pose proof (has_shape_map_rows B T C O f x Hlen Hx) as H.
  unfold map_rows in H. now rewrite HT in H.
Qed.

Lemma seqwise_Linear (T C O : nat) (l : Linear.t) :
  Linear_sized C O l -> seqwise T C O (Linear.forward l).
Proof.
  intros [Hi Ho].
  apply (seqwise_map_rows T C O _ (Linear.apply l) (Linear.out_features l) Ho).
  - intros B x s (_ & HC & _). apply Linear_forward_eq. congruence.
  - intros r. now rewrite Linear_apply_length.
Qed.

Lemma seqwise_LayerNorm (T C : nat) (l : LayerNorm.t) :
  LayerNorm.normalized_shape l = C -> seqwise T C C (LayerNorm.forward l).
Proof.
  intros Hl.
  apply (seqwise_map_rows T C C _ (LayerNorm.apply l) (LayerNorm.normalized_shape l) Hl).
  - intros B x s (_ & HC & _). apply LayerNorm_forward_eq. congruence.
  - intros r. now rewrite LayerNorm_apply_length.
Qed.

Lemma seqwise_Dropout (T C : nat) (d : Dropout.t) :
  Dropout.disabled d = true -> seqwise T C C (Dropout.forward d).
Proof.
  intros Hd. apply (seqwise_ext T C C (fun x => ret x)); [|apply seqwise_ret].
  intros x s. now rewrite Dropout_forward_eval.
Qed.

Lemma seqwise_FeedForward (T n : nat) (f : FeedForward.t) :
  FeedForward_built n f -> Dropout.disabled (FeedForward.dropout f) = true ->
  seqwise T n n (FeedForward.forward f).
Proof.
  intros Hf Hd.
  apply (seqwise_map_rows T n n _ (ff_row f) n eq_refl).
  - intros B x s Hx. now apply (FeedForward_forward_eval n B T).
  - intros r. unfold ff_row. rewrite Linear_apply_length.
    destruct Hf as (_ & _ & Ho). exact Ho.
Qed.

Lemma map2_self_map {A B C} (f : A -> B -> C) (g : A -> B) (l : list A) :
  map2 f l (map g l) = map (fun a => f a (g a)) l.
Proof. induction l; simpl; congruence. Qed.

(** The residual connection [x + F(x)]. *)
Lemma seqwise_residual (T C : nat) (F : tensor3 R -> M (tensor3 R)) :
  seqwise T C C F -> seqwise T C C (fun x => bind (F x) (add x)).
Proof.
  intros (g & Hg). exists (fun m => map2 vadd m (g m)).
  intros B x s Hx. destruct (Hg B x s Hx) as [E Hy].
  rewrite (bind_ok _ E).
  destruct (add_ok B T C x _ s Hx Hy) as (z & Ez & Hz & Dz).
  cbn [data] in Dz. rewrite map2_self_map in Dz.
  assert (Hzeq : z = T3 T C (map (fun m => map2 vadd m (g m)) (data x))).
  { destruct Hz as (HT & HC & _). destruct z as [t c d]. simpl in *. congruence. }
  rewrite <- Hzeq. split; assumption.
Qed.

Lemma heads_outputs (c : Config.t) (hs B T : nat) (heads : list Head.t)
      (x : tensor3 R) (s : rng) :
  Forall (Head_built c hs) heads -> Forall Head_eval heads ->
  (1 <= Config.n_embd c)%nat -> (T <= Config.block_size c)%nat ->
  has_shape B T (Config.n_embd c) x ->
  mapM (fun h => Head.forward h x) heads s
  = inr (map (fun h => T3 T hs (map (attend h T (Config.n_embd c)) (data x))) heads, s).
Proof.
  intros Hb He Hn HT Hx. apply mapM_pure. intros h Hin.
  rewrite Forall_forall in Hb, He.
  apply (Head_forward_eval c hs B T); auto.
Qed.

Lemma cat_fold_form (T hs : nat) (d : list (list (list R)))
      (gs : list (list (list R) -> list (list R))) :
  forall (g0 : list (list R) -> list (list R)) (k : nat) (s : rng),
    foldM cat2 (map (fun g => T3 T hs (map g d)) gs) (T3 T k (map g0 d)) s
    = inr (T3 T (k + length gs * hs)
              (map (fun m => fold_left (fun acc g => map2 (@app R) acc (g m))
                                       gs (g0 m)) d), s).
Proof.
  induction gs as [|g gs IH]; intros g0 k s; simpl.
  - now rewrite Nat.add_0_r.
  - assert (E : cat2 (T3 T k (map g0 d)) (T3 T hs (map g d)) s
                = inr (T3 T (k + hs) (map2 (map2 (@app R)) (map g0 d) (map g d)), s)).
    { apply (cat2_eq (T3 T k (map g0 d)) (T3 T hs (map g d)));
        simpl; [reflexivity | now rewrite !length_map]. }
    rewrite (bind_ok _ E). rewrite map2_map_map.
    rewrite (IH (fun m => map2 (@app R) (g0 m) (g m)) (k + hs)%nat s).
    do 3 f_equal. lia.
Qed.

Lemma seqwise_MultiHeadAttention (c : Config.t) (nh hs T : nat)
      (a : MultiHeadAttention.t) :
  MultiHeadAttention_built c nh hs a ->
  Forall Head_eval (MultiHeadAttention.heads a) ->
  Dropout.disabled (MultiHeadAttention.dropout a) = true ->
  (1 <= nh)%nat -> (nh * hs = Config.n_embd c)%nat ->
  (1 <= Config.n_embd c)%nat -> (T <= Config.block_size c)%nat ->
  seqwise T (Config.n_embd c) (Config.n_embd c) (MultiHeadAttention.forward a).
Proof.
  intros Ha Hev Hd Hnh Hdiv Hn HT.
  pose proof Ha as (Hlen & Hheads & [Hpi Hpo]).
  destruct (MultiHeadAttention.heads a) as [|h0 hl] eqn:Eh; [simpl in Hlen; lia|].
  apply (seqwise_intro T _ _ _
           (fun m => map (Linear.apply (MultiHeadAttention.proj a))
                         (fold_left (fun acc g => map2 (@app R) acc (g m))
                                    (map (fun h => attend h T (Config.n_embd c)) hl)
                                    (attend h0 T (Config.n_embd c) m)))).
  - intros B x s Hx. unfold MultiHeadAttention.forward. rewrite Eh.
    rewrite (bind_ok _ (heads_outputs c hs B T (h0 :: hl) x s Hheads Hev Hn HT Hx)).
    cbn [map cat].
    rewrite <- (map_map (fun h => attend h T (Config.n_embd c))
                        (fun g => T3 T hs (map g (data x)))).
    rewrite (bind_ok _ (cat_fold_form T hs (data x) _ _ hs s)).
    erewrite bind_ok.
    2:{ apply Linear_forward_eq. cbn [dimC]. rewrite length_map.
        simpl in Hlen. rewrite Hpi, <- Hdiv, <- Hlen. lia. }
    rewrite Dropout_forward_eval by assumption.
    unfold map_rows. cbn [data dimT]. now rewrite Hpo, map_map.
  - intros B x s Hx.
    apply (MultiHeadAttention_forward_ok c nh hs B T a x s); auto.
Qed.

Lemma Block_forward_nested (b : Block.t) (x : tensor3 R) (s : rng) :
  bind (bind (bind (LayerNorm.forward (Block.ln1 b) x)
                   (MultiHeadAttention.forward (Block.sa b)))
             (add x))
       (fun x1 => bind (bind (LayerNorm.forward (Block.ln2 b) x1)
                             (FeedForward.forward (Block.ffwd b)))
                       (add x1)) s
  = Block.forward b x s.
Proof.
  unfold Block.forward. rewrite !bind_assoc.
  apply bind_ext. intros n t. apply bind_ext. intros a t1.
  apply bind_ext. intros x1 t2. now rewrite bind_assoc.
Qed.

Lemma seqwise_Block (c : Config.t) (T : nat) (b : Block.t) :
  valid_config c ->
  Block_built c (Config.n_embd c) (Config.n_head c) b -> Block_eval b ->
  (T <= Config.block_size c)%nat ->
  seqwise T (Config.n_embd c) (Config.n_embd c) (Block.forward b).
Proof.
  intros (_ & Hn & Hh & Hmod & _) (Hsa & Hff & Hl1 & Hl2) (Hev & Hd1 & Hd2) HT.
  assert (Hdiv : (Config.n_head c * (Config.n_embd c / Config.n_head c)
                  = Config.n_embd c)%nat).
  { apply Nat.Div0.div_exact in Hmod. lia. }
  eapply seqwise_ext; [intros x s; apply Block_forward_nested|].
  apply (seqwise_bind T _ (Config.n_embd c)).
  - apply seqwise_residual. apply (seqwise_bind T _ (Config.n_embd c)).
    + now apply seqwise_LayerNorm.
    + now apply (seqwise_MultiHeadAttention c (Config.n_head c)
                   (Config.n_embd c / Config.n_head c)).
  - apply seqwise_residual. apply (seqwise_bind T _ (Config.n_embd c)).
    + now apply seqwise_LayerNorm.
    + now apply seqwise_FeedForward.
Qed.

Lemma seqwise_blocks (c : Config.t) (T : nat) (bl : list Block.t) :
  valid_config c ->
  Forall (Block_built c (Config.n_embd c) (Config.n_head c)) bl ->
  Forall Block_eval bl ->
  (T <= Config.block_size c)%nat ->
  seqwise T (Config.n_embd c) (Config.n_embd c)
          (foldM (fun x b => Block.forward b x) bl).
Proof.
  intros Hc Hb He HT. induction bl as [|b bl IH].
  - apply seqwise_ret.
  - inversion_clear Hb. inversion_clear He.
    apply (seqwise_ext _ _ _
             (fun x => bind (Block.forward b x)
                            (foldM (fun x b => Block.forward b x) bl)));
      [reflexivity|].
    apply (seqwise_bind T _ (Config.n_embd c)); [now apply seqwise_Block | auto].
Qed.

(** X18.  In eval mode the forward pass draws no random number.  With
    dropout disabled, [forward] without targets returns the same logits
    from every state of the generator and hands the state back unchanged;
    with targets it returns the same logits and loss, or raises the same
    error, from every state. *)
Theorem X18_eval_forward_draws_nothing (c : Config.t) (m : BigramLanguageModel.t)
        (idx : tokens) (targets : tokens) :
  valid_config c -> built c m -> dropout_disabled m ->
  wf_tokens idx -> (tokT idx <= Config.block_size c)%nat ->
  tokens_in_vocab (Config.vocab_size c) idx ->
  (exists logits,
     forall s, BigramLanguageModel.forward m idx None s
               = inr ((BigramLanguageModel.Logits3 logits, None), s)) /\
  ((exists e,
      forall s, BigramLanguageModel.forward m idx (Some targets) s = inl e) \/
   (exists r,
      forall s, BigramLanguageModel.forward m idx (Some targets) s = inr (r, s))).
Proof.
  intros Hc Hm Hd Hwf HT Hv.
  pose proof Hm as (_ & _ & Htd & _ & _ & _ & Hbl & Hlf & Hlh).
  assert (Hsw : seqwise (tokT idx) (Config.n_embd c) (Config.vocab_size c)
            (fun x => bind (foldM (fun x b => Block.forward b x)
                                  (BigramLanguageModel.blocks m) x)
                           (fun x => bind (LayerNorm.forward (BigramLanguageModel.ln_f m) x)
                                          (Linear.forward (BigramLanguageModel.lm_head m))))).
  { apply (seqwise_bind _ _ (Config.n_embd c)); [now apply seqwise_blocks|].
    apply (seqwise_bind _ _ (Config.n_embd c));
      [now apply seqwise_LayerNorm | now apply seqwise_Linear]. }
  destruct Hsw as (g & Hg).
  set (L := T3 (tokT idx) (Config.vocab_size c) (map g (data (embedded m idx)))).
  assert (HL : forall s, BigramLanguageModel.logits3 m idx s = inr (L, s)).
  { intros s. pose proof (embed_shape c m idx Hm Hwf) as Hx.
    destruct (Hg _ _ s Hx) as [E _].
    now rewrite <- (logits3_unfold c m idx s Hm ltac:(lia) Hv) in E. }
  split.
  - exists L. intros s. unfold BigramLanguageModel.forward.
    now rewrite (bind_ok _ (HL s)).
  - assert (HF : forall s,
        BigramLanguageModel.forward m idx (Some targets) s
        = bind (view1 (length (data L) * dimT L) targets)
            (fun t => bind (cross_entropy (view2 L) t)
            (fun loss => ret (BigramLanguageModel.Logits2 (view2 L), Some loss))) s).
    { intros s. unfold BigramLanguageModel.forward.
      now rewrite (bind_ok _ (HL s)). }
    unfold view1, cross_entropy in HF.
    destruct (tokB targets * tokT targets =? length (data L) * dimT L)%nat eqn:E1.
    + destruct (dimN (view2 L) =? length (concat (tokRows targets)))%nat eqn:E2.
      * destruct (forallb (fun t => (t <? dimV (view2 L))%nat)
                          (concat (tokRows targets))) eqn:E3.
        -- destruct (dimN (view2 L)) as [|n] eqn:E0;
             right; eexists; intros s; rewrite HF;
             unfold check, bind, ret; cbv beta iota; rewrite E2; cbv beta iota;
             rewrite E3; reflexivity.
        -- left. eexists. intros s. rewrite HF.
           unfold check, bind, ret, raise. cbv beta iota. rewrite E2. cbv beta iota.
           rewrite E3. reflexivity.
      * left. eexists. intros s. rewrite HF.
        unfold check, bind, ret, raise. cbv beta iota. rewrite E2. reflexivity.
    + left. eexists. intros s. rewrite HF. reflexivity.
Qed.

End Seqwise.

(** ** The further properties on the concrete model *)


Lemma sa0_built :
  MultiHeadAttention_built cfg0 2 2 (Block.sa block0).
Proof.
  unfold MultiHeadAttention_built, block0, cfg0. simpl.
  repeat split; try reflexivity. repeat constructor.
Defined.

Lemma ffwd0_built : FeedForward_built 4 (Block.ffwd block0).
Proof. unfold FeedForward_built, block0. simpl. repeat split; reflexivity. Defined.




Lemma X7_witness :
  (exists logits s',
     @BigramLanguageModel.logits3 example_runtime model0 idx0 tt = inr (logits, s')) /\
  @BigramLanguageModel.forward example_runtime model0 idx0
     (Some (Tok 2 [[0; 1]]%nat)) tt = inl ShapeMismatch.
Proof.
  apply (@X7_target_count_mismatch example_runtime cfg0 model0 idx0
           (Tok 2 [[0; 1]]%nat) tt).
  - exact cfg0_valid.
  - exact model0_built.
  - exact idx0_wf.
  - simpl. lia.
  - exact idx0_in_vocab.
  - simpl. lia.
Defined.

Lemma X19_witness :
  (exists logits s',
     @BigramLanguageModel.logits3 example_runtime model0 idx0 tt = inr (logits, s')) /\
  @BigramLanguageModel.forward example_runtime model0 idx0
     (Some (Tok 3 [[0; 1; 9]]%nat)) tt = inl IndexError.
Proof.
  apply (@X19_target_out_of_range example_runtime cfg0 model0 idx0
           (Tok 3 [[0; 1; 9]]%nat) tt).
  - exact cfg0_valid.
  - exact model0_built.
  - exact idx0_wf.
  - simpl. lia.
  - exact idx0_in_vocab.
  - repeat constructor.
  - reflexivity.
  - simpl. apply Exists_cons_hd. do 2 apply Exists_cons_tl. apply Exists_cons_hd. lia.
Defined.

Lemma X8_witness :
  exists probs s',
    @BigramLanguageModel.next_probs example_runtime model0 idx0 tt = inr (probs, s') /\
    has_shape2 1 5 probs /\
    Forall (fun row => Forall (fun p => 0 <= p) row /\ rsum row = 1) (rows2 probs).
Proof.
  apply (@X8_next_token_distribution example_runtime cfg0 model0 idx0 tt).
  - exact cfg0_valid.
  - exact model0_built.
  - exact idx0_wf.
  - simpl. lia.
  - exact idx0_in_vocab.
Defined.




Lemma X12_witness :
  exists y s', @Head.forward example_runtime head0 x0 tt = inr (y, s') /\
               has_shape 1 3 2 y.
Proof.
  apply (@X12_head_shape example_runtime cfg0 2 1 3 head0 x0 tt).
  - exact head0_built.
  - exact x0_shape.
  - simpl. lia.
  - simpl. lia.
Defined.

Lemma X13_witness :
  (exists y s', @MultiHeadAttention.forward example_runtime (Block.sa block0) x0 tt
                = inr (y, s') /\ has_shape 1 3 4 y) /\
  @MultiHeadAttention.forward example_runtime
     (MultiHeadAttention.Make [head0]
        (Linear.Make 4 4 (zeros 4 4) (Some (repeat 0 4))) eval_dropout) x0 tt
  = inl ShapeMismatch.
Proof.
  split.
  - apply (@X13_multi_head_width example_runtime cfg0 2 2 1 3 (Block.sa block0) x0 tt).
    + exact sa0_built.
    + lia.
    + simpl. lia.
    + simpl. lia.
    + exact x0_shape.
    + reflexivity.
  - apply (@X13_multi_head_width example_runtime cfg0 1 2 1 3
             (MultiHeadAttention.Make [head0]
                (Linear.Make 4 4 (zeros 4 4) (Some (repeat 0 4))) eval_dropout) x0 tt).
    + unfold MultiHeadAttention_built, cfg0. simpl.
      repeat split; try reflexivity. repeat constructor.
    + lia.
    + simpl. lia.
    + simpl. lia.
    + exact x0_shape.
    + simpl. lia.
Defined.

Lemma X14_witness :
  exists a s',
    @MultiHeadAttention.init example_runtime 0 2 cfg0 tt = inr (a, s') /\
    MultiHeadAttention.heads a = [] /\
    forall x t, @MultiHeadAttention.forward example_runtime a x t = inl EmptyCat.
Proof.
  apply (@X14_no_heads example_runtime 2 cfg0 tt).
  simpl. lra.
Defined.

Lemma X15_witness :
  exists y,
    @FeedForward.forward example_runtime (Block.ffwd block0) x0 tt = inr (y, tt) /\
    has_shape 1 3 4 y /\
    forall b t, (b < 1)%nat -> (t < 3)%nat ->
      nth t (nth b (data y) []) []
      = @ff_row example_runtime (Block.ffwd block0) (nth t (nth b (data x0) []) []).
Proof.
  apply (@X15_feed_forward_position_wise example_runtime 4 1 3 (Block.ffwd block0) x0 tt).
  - exact ffwd0_built.
  - reflexivity.
  - exact x0_shape.
Defined.

Lemma X16_witness :
  (exists m s', @BigramLanguageModel.init example_runtime cfg_no_layer tt = inr (m, s') /\
                BigramLanguageModel.blocks m = []) /\
  @BigramLanguageModel.init example_runtime cfg_no_head tt = inl ZeroDivisionError /\
  @BigramLanguageModel.init example_runtime cfg_bad_dropout tt = inl ValueError.
Proof.
  split; [|split].
  - apply (@X16_construction_outcome example_runtime cfg_no_layer tt). reflexivity.
  - apply (@X16_construction_outcome example_runtime cfg_no_head tt);
      [simpl; lia | reflexivity].
  - apply (@X16_construction_outcome example_runtime cfg_bad_dropout tt);
      [simpl; lia | simpl; lia | simpl; lra].
Defined.

Lemma X17_witness :
  exists m s',
    @BigramLanguageModel.init example_runtime cfg0 tt = inr (m, s') /\
    BigramLanguageModel.config m = cfg0 /\
    Forall (Block_dropouts (fun d => d = Dropout.Make 0 true))
           (BigramLanguageModel.blocks m) /\
    (Config.dropout cfg0 = 0 -> dropout_disabled m) /\
    (Config.dropout cfg0 <> 0 -> (1 <= Config.n_layer cfg0)%nat ->
     ~ dropout_disabled m).
Proof.
  destruct (@BigramLanguageModel_init_ok example_runtime cfg0 tt
              ltac:(simpl; lia) ltac:(simpl; lra)) as (m & s' & E & _).
  exists m, s'. split; [exact E|].
  exact (@X17_new_model_trains example_runtime cfg0 tt s' m E).
Defined.

Lemma X18_witness :
  (exists logits,
     forall s, @BigramLanguageModel.forward example_runtime model0 idx0 None s
               = inr ((BigramLanguageModel.Logits3 logits, None), s)) /\
  ((exists e,
      forall s, @BigramLanguageModel.forward example_runtime model0 idx0
                  (Some idx0) s = inl e) \/
   (exists r,
      forall s, @BigramLanguageModel.forward example_runtime model0 idx0
                  (Some idx0) s = inr (r, s))).
Proof.
  apply (@X18_eval_forward_draws_nothing example_runtime cfg0 model0 idx0 idx0).
  - exact cfg0_valid.
  - exact model0_built.
  - exact model0_eval.
  - exact idx0_wf.
  - simpl. lia.
  - exact idx0_in_vocab.
Defined.
